(** * Translation catalogs: merge, coverage and obsolete keys

    A shallow embedding of the reconciler of the translation tooling:
    [scripts/translations/yaml_manager.py] (loading, saving and merging
    catalogs), [scripts/translations/coverage.py] (coverage statistics) and
    [scripts/translations/obsolete.py] (finding, marking and deleting unused
    keys), followed by the properties the specification states about them.

    Conventions of the embedding.
    - A Python [str] is a [string]; its characters are read as the code
      points 0..255, so that comparing strings is comparing code points, as
      Python does.
    - A Python [dict] is an association list in insertion order; a Python
      [set] of strings is a [gset string].
    - A Python [int] is a [Z]; the one [float] of the code, the coverage
      percentage, is a binary64 [float].
    - A catalog file is what the YAML library makes of it: rejected, empty,
      a bare scalar, or a mapping whose [translations], when present, is
      [None] or a mapping from strings to strings or [None]. Numbers,
      booleans and nested structures as values are outside the model.
    - The catalog directory is explicit state: every function that touches a
      file is a computation in the monad [M], which threads the directory
      and stops at the first exception. *)

From Stdlib Require Import ZArith List Bool Ascii String DecimalString.
From Stdlib Require Import PrimFloat FloatOps SpecFloat Uint63.
From stdpp Require Import base option list sorting gmap strings.

#[local] Set Warnings "-clear-no-such-hyp,-inexact-float".

Local Open Scope Z_scope.

(** ** Python values and containers *)

Module Py.

(** The exceptions the modelled code can raise. *)
Inductive exn : Type :=
| FileNotFoundError   (* open() of a path that does not exist *)
| YAMLError           (* the YAML library rejects the text of the file *)
| AttributeError.     (* .get on a value that is not a mapping *)

(** The outcome of a call: a value, or an exception that propagates. *)
Inductive outcome (A : Type) : Type :=
| Returns (a : A)
| Raises (e : exn).
Global Arguments Returns {A} a.
Global Arguments Raises {A} e.

(** Scalars found in a catalog: a string, or [None] (in YAML, a key with
    nothing after the colon). *)
Inductive value : Type :=
| PNone
| PStr (s : string).

Global Instance value_eq_dec : EqDecision value.
Proof. solve_decision. Defined.

(** [str(v)] *)
Definition str (v : value) : string :=
  match v with
  | PNone => "None"
  | PStr s => s
  end.

(** Truth value of a string: non-empty. *)
Definition str_bool (s : string) : bool :=
  match s with
  | EmptyString => false
  | String _ _ => true
  end.

(** Truth value of a scalar. *)
Definition truthy (v : value) : bool :=
  match v with
  | PNone => false
  | PStr s => str_bool s
  end.

(** [c.isspace()] for the code points below 256: tab, line feed, vertical
    tab, form feed, carriage return, the separators 0x1c..0x1f, space,
    next line (0x85) and no-break space (0xa0). *)
Definition isspace (c : ascii) : bool :=
  let n := N_of_ascii c in
  ((9 <=? n) && (n <=? 13) || (28 <=? n) && (n <=? 32)
   || (n =? 133) || (n =? 160))%N.

(** [s.lstrip()], [s.rstrip()] and [s.strip()] *)
Fixpoint lstrip (s : string) : string :=
  match s with
  | EmptyString => EmptyString
  | String c s' => if isspace c then lstrip s' else s
  end.

Fixpoint rstrip (s : string) : string :=
  match s with
  | EmptyString => EmptyString
  | String c s' =>
      match rstrip s' with
      | EmptyString => if isspace c then EmptyString else String c EmptyString
      | r => String c r
      end
  end.

Definition strip (s : string) : string := rstrip (lstrip s).

(** [s.startswith(p)] *)
Definition startswith (s p : string) : bool := String.prefix p s.

(** *** Dictionaries

    [dict K V] lists the items in insertion order. Python keeps the keys of
    a dictionary distinct; [dict_ok] says so. *)
Section Dict.
Context {K : Type} `{EqDecision K} {V : Type}.

Definition dict : Type := list (K * V).

Definition dict_ok (d : dict) : Prop := NoDup (d.*1).

(** [d.get(k)] *)
Fixpoint dict_get (k : K) (d : dict) : option V :=
  match d with
  | [] => None
  | (k', v) :: d' => if decide (k = k') then Some v else dict_get k d'
  end.

(** [k in d] *)
Definition dict_contains (k : K) (d : dict) : bool :=
  match dict_get k d with
  | Some _ => true
  | None => false
  end.

(** [d[k] = v]: a present key keeps its place, a new key goes last. *)
Fixpoint dict_set (k : K) (v : V) (d : dict) : dict :=
  match d with
  | [] => [(k, v)]
  | (k', v') :: d' =>
      if decide (k = k') then (k', v) :: d' else (k', v') :: dict_set k v d'
  end.

(** [del d[k]] for a key that is present *)
Fixpoint dict_del (k : K) (d : dict) : dict :=
  match d with
  | [] => []
  | (k', v') :: d' =>
      if decide (k = k') then d' else (k', v') :: dict_del k d'
  end.

(** [list(d.keys())] *)
Definition dict_keys (d : dict) : list K := d.*1.

(** [dict(items)]: later items overwrite earlier ones with the same key. *)
Definition dict_of_items (items : list (K * V)) : dict :=
  fold_left (fun d kv => dict_set kv.1 kv.2 d) items [].

(** [len(d)] *)
Definition len (d : dict) : Z := Z.of_nat (length d).
End Dict.
Global Arguments dict : clear implicits.

(** [sorted(d.items())] for string keys. Python compares the (key, value)
    pairs; the keys of a dictionary differ, so the key decides. *)
Definition item_le {V : Type} (a b : string * V) : Prop := String.le a.1 b.1.

Global Instance item_le_dec {V : Type} : RelDecision (@item_le V).
Proof. intros a b. unfold item_le. apply _. Defined.

Definition sorted_items {V : Type} (d : dict string V) : list (string * V) :=
  merge_sort item_le d.

(** *** Floats

    [int / int], and [round(x, 1)]: the decimal with one digit after the
    point that is nearest to the exact value of [x], ties to the even
    digit, converted back to the nearest float. The conversions are exact
    for the magnitudes the code meets (counts below 2^53, percentages
    between 0 and 100). *)
Definition float_of_int (n : Z) : float := of_uint63 (Uint63.of_Z n).

Definition truediv (a b : Z) : float := (float_of_int a / float_of_int b)%float.

(** Nearest integer to [m * 10 / 2^k], ties to even. *)
Definition round_half_even_tenths (m : positive) (k : Z) : Z :=
  let num := Z.pos m * 10 in
  let den := 2 ^ k in
  let q := num / den in
  let r := num mod den in
  match 2 * r ?= den with
  | Lt => q
  | Gt => q + 1
  | Eq => if Z.even q then q else q + 1
  end.

(** A float [m * 2^e] with [0 <= e] is an integer and is its own rounding. *)
Definition round1 (x : float) : float :=
  match Prim2SF x with
  | S754_finite s m e =>
      if 0 <=? e then x
      else
        let y := (float_of_int (round_half_even_tenths m (- e)) / 10)%float in
        if s then (- y)%float else y
  | _ => x
  end.

(** [str(n)] for an integer *)
Definition str_int (n : Z) : string := NilZero.string_of_int (Z.to_int n).

(** [sep.join(l)] *)
Fixpoint join (sep : string) (l : list string) : string :=
  match l with
  | [] => ""
  | [x] => x
  | x :: l' => x +:+ sep +:+ join sep l'
  end.

(** [sorted(l)] for a list of strings *)
Definition sorted_strings (l : list string) : list string := merge_sort String.le l.

End Py.
Export Py.

(** ** The catalog directory and the monad of file operations *)

Module Store.

(** A catalog document: the top-level mapping of a [.yml] file. A field
    that is missing from the file is [None]; [translations: ] with nothing
    after the colon is [Some None], Python's [None]. Top-level fields other
    than the two the code reads are kept in [doc_others]. *)
Record document : Type := Document {
  doc_locale : option value;
  doc_translations : option (option (dict string value));
  doc_others : dict string value
}.

(** What the YAML library returns for a file that it accepts: [None] for an
    empty file, a mapping, or a bare scalar. *)
Inductive yaml_top : Type :=
| TNone
| TMap (d : document)
| TScalar (s : string).

(** The content of a file, as the YAML library sees it. *)
Inductive file_content : Type :=
| Unparseable
| Parsed (data : yaml_top).

(** The [*.yml] files of the catalog directory in the order [glob] lists
    them, each under its stem (the file [de.yml] under ["de"]), and the log
    of the paths written so far. *)
Record directory : Type := Directory {
  files : list (string * file_content);
  written : list string
}.

(** State and exceptions. *)
Definition M (A : Type) : Type := directory -> outcome A * directory.

Global Instance M_ret : MRet M := fun A a fs => (Returns a, fs).
Global Instance M_bind : MBind M := fun A B k m fs =>
  match m fs with
  | (Returns a, fs') => k a fs'
  | (Raises e, fs') => (Raises e, fs')
  end.

Definition raise {A : Type} (e : exn) : M A := fun fs => (Raises e, fs).

(** [for x in l: body], with the variables the loop updates as [s]. *)
Fixpoint for_each {A S : Type} (l : list A) (body : A -> S -> M S) (s : S) : M S :=
  match l with
  | [] => mret s
  | x :: l' => s' ← body x s; for_each l' body s'
  end.

(** [list(yaml_dir.glob("*.yml"))] *)
Definition glob_yml : M (list string) :=
  fun fs => (Returns (dict_keys (files fs)), fs).

(** [(yaml_dir / f"{stem}.yml").exists()] *)
Definition path_exists (stem : string) : M bool :=
  fun fs => (Returns (dict_contains stem (files fs)), fs).

(** [open(path, "r")] followed by the library's [load]. *)
Definition yaml_load (yaml_path : string) : M yaml_top :=
  fun fs =>
    match dict_get yaml_path (files fs) with
    | None => (Raises FileNotFoundError, fs)
    | Some Unparseable => (Raises YAMLError, fs)
    | Some (Parsed data) => (Returns data, fs)
    end.

(** [open(path, "w")] followed by the library's [dump]: afterwards the file
    holds the document, and loading it gives the document back. *)
Definition yaml_dump (yaml_path : string) (data : document) : M unit :=
  fun fs =>
    (Returns tt,
     {| files := dict_set yaml_path (Parsed (TMap data)) (files fs);
        written := written fs ++ [yaml_path] |}).

(** Truth value of what [load] returned. *)
Definition doc_bool (d : document) : bool :=
  match doc_locale d, doc_translations d, doc_others d with
  | None, None, [] => false
  | _, _, _ => true
  end.

Definition top_bool (t : yaml_top) : bool :=
  match t with
  | TNone => false
  | TMap d => doc_bool d
  | TScalar s => str_bool s
  end.

(** [data.get(...)] needs a mapping. *)
Definition as_mapping (t : yaml_top) : M document :=
  match t with
  | TMap d => mret d
  | _ => raise AttributeError
  end.

(** [data["translations"] = t] *)
Definition set_translations (t : option (dict string value)) (data : document) : document :=
  {| doc_locale := doc_locale data;
     doc_translations := Some t;
     doc_others := doc_others data |}.

(** [data.get("locale", yaml_path.stem)] *)
Definition get_locale (yaml_path : string) (data : document) : value :=
  default (PStr yaml_path) (doc_locale data).

(** [data.get("translations", {})] *)
Definition get_translations (data : document) : option (dict string value) :=
  default (Some []) (doc_translations data).

(** Truth value of a dictionary that may be [None]. *)
Definition dict_bool {V : Type} (t : option (dict string V)) : bool :=
  match t with
  | Some (_ :: _) => true
  | _ => false
  end.

(** [t or {}] *)
Definition or_empty {V : Type} (t : option (dict string V)) : dict string V :=
  default [] t.

End Store.
Export Store.

(** ** yaml_manager.py *)

Module YamlManager.

Record MergeResult : Type := mkMergeResult {
  keys_added : Z;
  files_modified : Z;
  keys_per_file : dict string Z
}.

Definition MergeResult_default : MergeResult :=
  {| keys_added := 0; files_modified := 0; keys_per_file := [] |}.

(** The catalog [load_yaml_file] substitutes for an empty document. *)
Definition empty_catalog : document :=
  {| doc_locale := Some (PStr "");
     doc_translations := Some (Some []);
     doc_others := [] |}.

Definition load_yaml_file (yaml_path : string) : M yaml_top :=
  data ← yaml_load yaml_path;
  mret (if top_bool data then data else TMap empty_catalog).

Section Backend.
(** Which YAML library is installed: ruamel.yaml, which writes mappings
    in the order they have, or PyYAML, which is called with
    [sort_keys=True]. *)
Variable RUAMEL_AVAILABLE : bool.

Definition sort_keys (data : document) : document :=
  {| doc_locale := doc_locale data;
     doc_translations :=
       match doc_translations data with
       | Some (Some t) => Some (Some (sorted_items t))
       | other => other
       end;
     doc_others := sorted_items (doc_others data) |}.

Definition save_yaml_file (yaml_path : string) (data : document) : M unit :=
  if RUAMEL_AVAILABLE then yaml_dump yaml_path data
  else yaml_dump yaml_path (sort_keys data).

(** One turn of [for key in new_keys], on the dictionary and the count
    of keys added to the file. *)
Definition merge_key (locale : value) (acc : dict string value * Z) (key : string)
  : dict string value * Z :=
  let '(translations, keys_added_to_file) := acc in
  if negb (dict_contains key translations) then
    (dict_set key (if decide (locale = PStr "en") then PStr key else PStr "")
              translations,
     keys_added_to_file + 1)
  else acc.

Definition merge_new_keys (new_keys : gset string) (dry_run : bool) : M MergeResult :=
  yaml_paths ← glob_yml;
  for_each yaml_paths (fun yaml_path result =>
    data ← load_yaml_file yaml_path;
    data ← as_mapping data;
    let locale := get_locale yaml_path data in
    let translations := get_translations data in
    let '(translations, data) :=
      match translations with
      | None => ([], set_translations (Some []) data)
      | Some t => (t, data)
      end in
    let '(translations, keys_added_to_file) :=
      fold_left (merge_key locale) (elements new_keys) (translations, 0) in
    if 0 <? keys_added_to_file then
      let result :=
        {| keys_added := keys_added result + keys_added_to_file;
           files_modified := files_modified result + 1;
           keys_per_file :=
             dict_set (yaml_path +:+ ".yml") keys_added_to_file
                      (keys_per_file result) |} in
      let sorted_translations := dict_of_items (sorted_items translations) in
      let data := set_translations (Some sorted_translations) data in
      if negb dry_run then
        _ ← save_yaml_file yaml_path data; mret result
      else mret result
    else mret result) MergeResult_default.
End Backend.

Section Sources.
Variable RUAMEL_AVAILABLE : bool.
(** [isinstance(translations, CommentedMap)] for the translations mapping of
    a loaded document: the YAML library decides it, so it is a parameter. The
    dictionaries the code makes itself, for a missing or [None] field, are
    plain ones. *)
Variable is_CommentedMap : document -> bool.

(** The comment put before a new key: its first three sources, and how many
    more there are. *)
Definition source_comment (sources : list (string * Z)) : string :=
  let source_str :=
    join ", " (map (fun fl => fl.1 +:+ ":" +:+ str_int fl.2) (take 3 sources)) in
  let source_str :=
    if 3 <? Z.of_nat (length sources)
    then source_str +:+ " (+" +:+ str_int (Z.of_nat (length sources) - 3) +:+ " more)"
    else source_str in
  " Source: " +:+ source_str.

(** One turn of [for key, sources in new_keys_with_sources.items()], on the
    translations, the comments set on them and the count of keys added. *)
Definition merge_source_key (commented : bool) (locale : value)
    (acc : dict string value * dict string string * Z)
    (item : string * list (string * Z))
  : dict string value * dict string string * Z :=
  let '(translations, comments, keys_added_to_file) := acc in
  let '(key, sources) := item in
  if negb (dict_contains key translations) then
    (dict_set key (if decide (locale = PStr "en") then PStr key else PStr "")
              translations,
     (if RUAMEL_AVAILABLE && commented
      then dict_set key (source_comment sources) comments
      else comments),
     keys_added_to_file + 1)
  else acc.

(** The comments are set on the mapping that was loaded; the mapping that is
    saved is the new one made of the sorted items. *)
Definition merge_new_keys_with_sources
    (new_keys_with_sources : dict string (list (string * Z))) (dry_run : bool)
  : M MergeResult :=
  yaml_paths ← glob_yml;
  for_each yaml_paths (fun yaml_path result =>
    data ← load_yaml_file yaml_path;
    data ← as_mapping data;
    let locale := get_locale yaml_path data in
    let translations := get_translations data in
    let commented :=
      match doc_translations data with
      | Some (Some _) => is_CommentedMap data
      | _ => false
      end in
    let '(translations, data) :=
      match translations with
      | None => ([], set_translations (Some []) data)
      | Some t => (t, data)
      end in
    let '(translations, comments, keys_added_to_file) :=
      fold_left (merge_source_key commented locale) new_keys_with_sources
                (translations, [], 0) in
    if 0 <? keys_added_to_file then
      let result :=
        {| keys_added := keys_added result + keys_added_to_file;
           files_modified := files_modified result + 1;
           keys_per_file :=
             dict_set (yaml_path +:+ ".yml") keys_added_to_file
                      (keys_per_file result) |} in
      let sorted_translations := dict_of_items (sorted_items translations) in
      let data := set_translations (Some sorted_translations) data in
      if negb dry_run then
        _ ← save_yaml_file RUAMEL_AVAILABLE yaml_path data; mret result
      else mret result
    else mret result) MergeResult_default.
End Sources.

End YamlManager.
Export YamlManager.

(** ** coverage.py *)

Module Coverage.

(** The statistics of one language: the dictionary with the keys
    ["total"], ["translated"], ["missing"] and ["percentage"]. *)
Record LanguageStats : Type := mkLanguageStats {
  total : Z;
  translated : Z;
  missing : Z;
  percentage : float
}.

(** One turn of [for key in base_translations or {}]. *)
Definition count_key (translations : dict string value) (translated : Z) (key : string) : Z :=
  let value := default (PStr "") (dict_get key translations) in
  if truthy value && str_bool (strip (str value)) then translated + 1
  else translated.

Definition calculate_coverage (base_locale : string) : M (dict value LanguageStats) :=
  let result : dict value LanguageStats := [] in
  base_exists ← path_exists base_locale;
  yaml_files ← glob_yml;
  match (if base_exists : bool then Some base_locale else head yaml_files)
        return M (dict value LanguageStats) with
  | None => mret result
  | Some base_path =>
      base_data ← load_yaml_file base_path;
      base_data ← as_mapping base_data;
      let base_translations := get_translations base_data in
      let total_keys :=
        if dict_bool base_translations then len (or_empty base_translations) else 0 in
      yaml_paths ← glob_yml;
      for_each yaml_paths (fun yaml_path result =>
        data ← load_yaml_file yaml_path;
        data ← as_mapping data;
        let locale := get_locale yaml_path data in
        let translations := get_translations data in
        if decide (locale = PStr base_locale) then
          mret (dict_set locale
                  {| total := total_keys;
                     translated := total_keys;
                     missing := 0;
                     percentage := 100 |} result)
        else
          let translated :=
            if dict_bool translations then
              fold_left (count_key (or_empty translations))
                        (dict_keys (or_empty base_translations)) 0
            else 0 in
          let missing := total_keys - translated in
          let percentage :=
            if 0 <? total_keys then (truediv translated total_keys * 100)%float
            else 100%float in
          mret (dict_set locale
                  {| total := total_keys;
                     translated := translated;
                     missing := missing;
                     percentage := round1 percentage |} result)) result
  end.

(** One turn of [for key in base_translations] in
    [get_missing_translations]. *)
Definition missing_key (translations : option (dict string value))
    (missing : list string) (key : string) : list string :=
  let value :=
    if dict_bool translations
    then default (PStr "") (dict_get key (or_empty translations))
    else PStr "" in
  if negb (truthy value) || negb (str_bool (strip (str value)))
  then missing ++ [key]
  else missing.

Definition get_missing_translations (base_locale : string) : M (dict value (list string)) :=
  let result : dict value (list string) := [] in
  base_exists ← path_exists base_locale;
  if negb base_exists then mret result
  else
    base_data ← load_yaml_file base_locale;
    base_data ← as_mapping base_data;
    let base_translations := get_translations base_data in
    if negb (dict_bool base_translations) then mret result
    else
      yaml_paths ← glob_yml;
      for_each yaml_paths (fun yaml_path result =>
        data ← load_yaml_file yaml_path;
        data ← as_mapping data;
        let locale := get_locale yaml_path data in
        if decide (locale = PStr base_locale) then mret result
        else
          let translations := get_translations data in
          let missing :=
            fold_left (missing_key translations)
                      (dict_keys (or_empty base_translations)) [] in
          match missing with
          | _ :: _ => mret (dict_set locale (sorted_strings missing) result)
          | [] => mret result
          end) result.

End Coverage.
Export Coverage.

(** ** obsolete.py *)

Module Obsolete.

Section Extractor.
(** [extractor.py] is outside the modelled sources: the two scans are
    parameters, each a function from the tree it reads to the set of
    strings it finds there (both are called with [recursive=True]). *)
Variables xml_tree cpp_tree : Type.
Variable extract_strings_from_directory : xml_tree -> gset string.
Variable extract_strings_from_cpp_directory : cpp_tree -> gset string.

(** [cpp_dir] is [None] when the caller gives no directory, [Some None]
    for a path that does not exist and [Some (Some t)] for a directory. *)
Definition find_obsolete_keys (xml_dir : xml_tree) (base_locale : string)
    (cpp_dir : option (option cpp_tree)) : M (gset string) :=
  let used_strings := extract_strings_from_directory xml_dir in
  let used_strings :=
    match cpp_dir with
    | Some (Some t) => used_strings ∪ extract_strings_from_cpp_directory t
    | _ => used_strings
    end in
  base_exists ← path_exists base_locale;
  if negb base_exists then mret ∅
  else
    base_data ← load_yaml_file base_locale;
    base_data ← as_mapping base_data;
    let base_translations := get_translations base_data in
    if negb (dict_bool base_translations) then mret ∅
    else
      let yaml_keys : gset string :=
        list_to_set (dict_keys (or_empty base_translations)) in
      let obsolete := yaml_keys ∖ used_strings in
      mret obsolete.
End Extractor.

Section Backend.
Variable RUAMEL_AVAILABLE : bool.

(** One turn of [for key in obsolete_keys] in [mark_obsolete_keys]. *)
Definition mark_key (acc : dict string value * bool * Z) (key : string)
  : dict string value * bool * Z :=
  let '(translations, modified, marked) := acc in
  match dict_get key translations with
  | Some value =>
      if negb (startswith (str value) "[DEPRECATED]") then
        (dict_set key (PStr ("[DEPRECATED] " +:+ str value)) translations,
         true, marked + 1)
      else acc
  | None => acc
  end.

Definition mark_obsolete_keys (obsolete_keys : gset string) (dry_run : bool) : M Z :=
  if decide (obsolete_keys = ∅) then mret 0
  else
    yaml_paths ← glob_yml;
    for_each yaml_paths (fun yaml_path marked =>
      data ← load_yaml_file yaml_path;
      data ← as_mapping data;
      let translations := get_translations data in
      if negb (dict_bool translations) then mret marked
      else
        let '(translations, modified, marked) :=
          fold_left mark_key (elements obsolete_keys)
                    (or_empty translations, false, marked) in
        let data := set_translations (Some translations) data in
        if modified && negb dry_run then
          _ ← save_yaml_file RUAMEL_AVAILABLE yaml_path data; mret marked
        else mret marked) 0.

(** One turn of [for key in list(translations.keys())] in
    [delete_obsolete_keys]. *)
Definition delete_key (obsolete_keys : gset string)
    (acc : dict string value * bool * Z) (key : string)
  : dict string value * bool * Z :=
  let '(translations, modified, deleted) := acc in
  if decide (key ∈ obsolete_keys) then
    (dict_del key translations, true, deleted + 1)
  else acc.

Definition delete_obsolete_keys (obsolete_keys : gset string) (dry_run : bool) : M Z :=
  if decide (obsolete_keys = ∅) then mret 0
  else
    yaml_paths ← glob_yml;
    for_each yaml_paths (fun yaml_path deleted =>
      data ← load_yaml_file yaml_path;
      data ← as_mapping data;
      let translations := get_translations data in
      if negb (dict_bool translations) then mret deleted
      else
        let '(translations, modified, deleted) :=
          fold_left (delete_key obsolete_keys)
                    (dict_keys (or_empty translations))
                    (or_empty translations, false, deleted) in
        let data := set_translations (Some translations) data in
        if modified && negb dry_run then
          _ ← save_yaml_file RUAMEL_AVAILABLE yaml_path data; mret deleted
        else mret deleted) 0.
End Backend.

(** [report_obsolete_keys] prints; the lines it prints are its result
    here. *)
Definition report_obsolete_keys (obsolete_keys : gset string) : list string :=
  if decide (obsolete_keys = ∅) then ["No obsolete keys found."]
  else
    ["Found " +:+ str_int (Z.of_nat (size obsolete_keys)) +:+ " obsolete keys:"; ""]
    ++ map (fun key => "  - " +:+ key) (sorted_strings (elements obsolete_keys)).

End Obsolete.
Export Obsolete.

(** ** Reading the directory as a list of catalogs

    The definitions below are the vocabulary of the properties: what a file
    loads as, which catalog a path holds, and what a loop over the files
    computes entry by entry. *)

Module Run.

(** What [load_yaml_file] followed by the first [data.get] makes of the
    content of a file. *)
Definition load_content (c : file_content) : outcome document :=
  match c with
  | Unparseable => Raises YAMLError
  | Parsed t =>
      match (if top_bool t then t else TMap empty_catalog) with
      | TMap d => Returns d
      | _ => Raises AttributeError
      end
  end.

(** The catalog the file [<p>.yml] holds, when it loads as one. *)
Definition catalog (fs : directory) (p : string) : option document :=
  match dict_get p (files fs) with
  | Some c =>
      match load_content c with
      | Returns d => Some d
      | Raises _ => None
      end
  | None => None
  end.

(** The translations mapping of a catalog, empty when the field is missing
    or [None]. *)
Definition translations_of (d : document) : dict string value :=
  or_empty (get_translations d).

(** Dictionaries have distinct keys, and so have directories. *)
Definition doc_ok (d : document) : Prop :=
  dict_ok (translations_of d) ∧ dict_ok (doc_others d).

Definition content_ok (c : file_content) : Prop :=
  match c with
  | Parsed (TMap d) => doc_ok d
  | _ => True
  end.

Definition dir_ok (fs : directory) : Prop :=
  dict_ok (files fs) ∧ Forall (fun e => content_ok e.2) (files fs).

Global Instance dict_ok_dec {K V : Type} `{EqDecision K} (d : dict K V) :
  Decision (dict_ok d).
Proof. unfold dict_ok. apply _. Defined.

Global Instance content_ok_dec (c : file_content) : Decision (content_ok c).
Proof.
  destruct c as [|[|d|s]]; simpl; apply _.
Defined.

Global Instance dir_ok_dec (fs : directory) : Decision (dir_ok fs).
Proof. unfold dir_ok. apply _. Defined.

(** Every file of the directory loads as a catalog. *)
Definition loads (e : string * file_content) : Prop :=
  match load_content e.2 with
  | Returns _ => True
  | Raises _ => False
  end.

Definition all_load (fs : directory) : Prop := Forall loads (files fs).

Global Instance loads_dec (e : string * file_content) : Decision (loads e).
Proof. unfold loads. destruct (load_content e.2); apply _. Defined.

Global Instance all_load_dec (fs : directory) : Decision (all_load fs).
Proof. unfold all_load. apply _. Defined.

(** What [save_yaml_file] puts in the file. *)
Definition dumped (RUAMEL_AVAILABLE : bool) (data : document) : document :=
  if RUAMEL_AVAILABLE then data else sort_keys data.

Section Loop.
Context {S : Type}.
Variable RUAMEL_AVAILABLE : bool.
(** What a turn of the loop saves for a catalog, if anything, and what it
    does to the variables of the loop. *)
Variable effect : string -> document -> option document.
Variable account : string -> document -> S -> S.

(** The common shape of the loops of [merge_new_keys],
    [mark_obsolete_keys] and [delete_obsolete_keys]. *)
Definition file_body (yaml_path : string) (s : S) : M S :=
  data ← load_yaml_file yaml_path;
  data ← as_mapping data;
  match effect yaml_path data with
  | Some data' =>
      _ ← save_yaml_file RUAMEL_AVAILABLE yaml_path data';
      mret (account yaml_path data s)
  | None => mret (account yaml_path data s)
  end.

(** The same loop, entry by entry: the outcome, the entries afterwards
    and the paths written. It stops at the first file that does not load
    as a catalog. *)
Fixpoint run_files (entries : list (string * file_content)) (s : S)
  : outcome S * list (string * file_content) * list string :=
  match entries with
  | [] => (Returns s, [], [])
  | (p, c) :: rest =>
      match load_content c with
      | Raises e => (Raises e, entries, [])
      | Returns d =>
          let '(o, rest', ws) := run_files rest (account p d s) in
          match effect p d with
          | Some d' =>
              (o, (p, Parsed (TMap (dumped RUAMEL_AVAILABLE d'))) :: rest', p :: ws)
          | None => (o, (p, c) :: rest', ws)
          end
      end
  end.

(** What a completed run makes of one entry. *)
Definition apply_effect (e : string * file_content) : string * file_content :=
  match load_content e.2 with
  | Returns d =>
      match effect e.1 d with
      | Some d' => (e.1, Parsed (TMap (dumped RUAMEL_AVAILABLE d')))
      | None => e
      end
  | Raises _ => e
  end.

Definition account_entry (s : S) (e : string * file_content) : S :=
  match load_content e.2 with
  | Returns d => account e.1 d s
  | Raises _ => s
  end.

Definition is_written (e : string * file_content) : bool :=
  match load_content e.2 with
  | Returns d => bool_decide (is_Some (effect e.1 d))
  | Raises _ => false
  end.

End Loop.

End Run.
Export Run.

(** ** What each function does to one catalog *)

Module PerCatalog.

(** *** [merge_new_keys] *)

(** The value a new key gets. *)
Definition new_value (locale : value) (key : string) : value :=
  if decide (locale = PStr "en") then PStr key else PStr "".

(** The loop [for key in new_keys] on the translations of one catalog. *)
Definition merge_translations (locale : value) (new_keys : gset string)
    (t : dict string value) : dict string value * Z :=
  fold_left (merge_key locale) (elements new_keys) (t, 0).

(** The document [merge_new_keys] builds when it has added keys. *)
Definition merged_document (new_keys : gset string) (p : string) (d : document) : document :=
  let t := (merge_translations (get_locale p d) new_keys (translations_of d)).1 in
  set_translations (Some (dict_of_items (sorted_items t))) d.

Definition merge_count (new_keys : gset string) (p : string) (d : document) : Z :=
  (merge_translations (get_locale p d) new_keys (translations_of d)).2.

Definition merge_effect (new_keys : gset string) (dry_run : bool)
    (p : string) (d : document) : option document :=
  if (0 <? merge_count new_keys p d) && negb dry_run
  then Some (merged_document new_keys p d) else None.

Definition merge_account (new_keys : gset string)
    (p : string) (d : document) (result : MergeResult) : MergeResult :=
  let n := merge_count new_keys p d in
  if 0 <? n then
    {| keys_added := keys_added result + n;
       files_modified := files_modified result + 1;
       keys_per_file := dict_set (p +:+ ".yml") n (keys_per_file result) |}
  else result.

(** Strictly increasing keys, in the order of the code points. *)
Definition key_lt (a b : string) : Prop := String.le a b ∧ a ≠ b.

Definition sorted_by_key {V : Type} (t : dict string V) : Prop :=
  StronglySorted key_lt (dict_keys t).


(** *** [mark_obsolete_keys] and [delete_obsolete_keys]

    Both loops count what they change in a catalog, save the changed catalog
    when the count is positive and the run is not a dry run, and add the
    count to their total. *)
Definition counted_effect (count : document -> Z) (change : document -> document)
    (dry_run : bool) (p : string) (d : document) : option document :=
  if (0 <? count d) && negb dry_run then Some (change d) else None.



(** *** [mark_obsolete_keys] *)

Definition is_marked (v : value) : bool := startswith (str v) "[DEPRECATED]".

(** The value after marking. *)
Definition marked_value (v : value) : value :=
  if is_marked v then v else PStr ("[DEPRECATED] " +:+ str v).

Definition mark_translations (obsolete_keys : gset string) (t : dict string value)
  : dict string value * bool * Z :=
  fold_left mark_key (elements obsolete_keys) (t, false, 0).

(** The key is in the catalog with a value that does not carry the marker
    yet. *)
Definition markable (t : dict string value) (k : string) : bool :=
  match dict_get k t with
  | Some v => negb (is_marked v)
  | None => false
  end.

(** The number of keys of the set that the catalog holds unmarked. *)
Definition mark_count (obsolete_keys : gset string) (d : document) : Z :=
  Z.of_nat (length (filter (fun k => markable (translations_of d) k = true)
                           (elements obsolete_keys))).

Definition marked_document (obsolete_keys : gset string) (d : document) : document :=
  set_translations (Some (mark_translations obsolete_keys (translations_of d)).1.1) d.

Definition mark_effect (obsolete_keys : gset string) (dry_run : bool)
  : string -> document -> option document :=
  counted_effect (mark_count obsolete_keys) (marked_document obsolete_keys) dry_run.


(** *** [delete_obsolete_keys] *)


(** The loop [for key in list(translations.keys())] on the translations of
    one catalog. *)
Definition delete_translations (obsolete_keys : gset string) (t : dict string value)
  : dict string value * bool * Z :=
  fold_left (delete_key obsolete_keys) (dict_keys t) (t, false, 0).

(** The number of keys of the catalog that are in the set. *)
Definition delete_count (obsolete_keys : gset string) (d : document) : Z :=
  Z.of_nat (length (filter (fun k => k ∈ obsolete_keys) (dict_keys (translations_of d)))).

Definition deleted_document (obsolete_keys : gset string) (d : document) : document :=
  set_translations (Some (delete_translations obsolete_keys (translations_of d)).1.1) d.

Definition delete_effect (obsolete_keys : gset string) (dry_run : bool)
  : string -> document -> option document :=
  counted_effect (delete_count obsolete_keys) (deleted_document obsolete_keys) dry_run.


(** The sum of a count over the catalogs of a directory. *)
Definition entry_count (count : document -> Z) (e : string * file_content) : Z :=
  match load_content e.2 with
  | Returns d => count d
  | Raises _ => 0
  end.

Definition sum_over (count : document -> Z) (fs : directory) : Z :=
  foldr (fun e n => entry_count count e + n) 0 (files fs).

(** *** [calculate_coverage] *)

(** The key has a value in the catalog that is non-empty after trimming. *)
Definition is_translated (t : dict string value) (key : string) : bool :=
  match dict_get key t with
  | Some (PStr s) => str_bool (strip s)
  | _ => false
  end.

Definition translated_count (base_keys : list string) (t : dict string value) : Z :=
  Z.of_nat (length (filter (fun k => is_translated t k = true) base_keys)).

(** The statistics the specification gives a catalog: [base] is the
    translations mapping of the base catalog. *)
Definition coverage_of (base_locale : string) (base : dict string value)
    (p : string) (d : document) : LanguageStats :=
  let total := len base in
  if decide (get_locale p d = PStr base_locale) then
    {| total := total; translated := total; missing := 0; percentage := 100 |}
  else
    let translated := translated_count (dict_keys base) (translations_of d) in
    {| total := total;
       translated := translated;
       missing := total - translated;
       percentage :=
         if total =? 0 then 100%float
         else round1 (truediv translated total * 100)%float |}.

(** The file the keys of the base locale are read from: [<base_locale>.yml],
    or the first file of the directory when there is no such file. *)
Definition base_path (base_locale : string) (fs : directory) : option string :=
  if dict_contains base_locale (files fs) then Some base_locale
  else head (dict_keys (files fs)).

(** The translations of the base catalog, none when the directory has no
    file or the base file does not load. *)
Definition base_translations (base_locale : string) (fs : directory) : dict string value :=
  match base_path base_locale fs with
  | Some p =>
      match catalog fs p with
      | Some d => translations_of d
      | None => []
      end
  | None => []
  end.

(** What a turn of the loop of [calculate_coverage] does to its result. *)
Definition coverage_account (base_locale : string) (base : dict string value)
    (p : string) (d : document) (result : dict value LanguageStats)
  : dict value LanguageStats :=
  dict_set (get_locale p d) (coverage_of base_locale base p d) result.

(** The statistics of the catalog an entry holds. *)
Definition entry_coverage (base_locale : string) (base : dict string value)
    (e : string * file_content) : option LanguageStats :=
  match load_content e.2 with
  | Returns d => Some (coverage_of base_locale base e.1 d)
  | Raises _ => None
  end.

(** The locale of the catalog an entry holds, and the entries of the
    directory whose catalog has the locale [l]. *)
Definition entry_locale (e : string * file_content) : option value :=
  match load_content e.2 with
  | Returns d => Some (get_locale e.1 d)
  | Raises _ => None
  end.


(** *** [find_obsolete_keys] *)

(** The keys of the catalog [<base_locale>.yml], none when there is no such
    file. *)
Definition base_keys (base_locale : string) (fs : directory) : gset string :=
  match catalog fs base_locale with
  | Some d => list_to_set (dict_keys (translations_of d))
  | None => ∅
  end.

(** The file [<base_locale>.yml] is missing, or it loads as a catalog. *)
Definition base_readable (base_locale : string) (fs : directory) : Prop :=
  match dict_get base_locale (files fs) with
  | Some c => loads (base_locale, c)
  | None => True
  end.

Global Instance base_readable_dec base_locale fs : Decision (base_readable base_locale fs).
Proof. unfold base_readable. destruct (dict_get base_locale (files fs)); apply _. Defined.

(** A catalog without translations: the field is missing, [None] or an empty
    mapping. *)
Definition no_translations (d : document) : Prop :=
  doc_translations d = None ∨ doc_translations d = Some None ∨
  doc_translations d = Some (Some []).

(** The strings in use: those of the markup, and those of the C++ sources
    when their directory is given and exists. *)
Definition used_strings {xml_tree cpp_tree : Type}
    (extract_xml : xml_tree -> gset string) (extract_cpp : cpp_tree -> gset string)
    (xml_dir : xml_tree) (cpp_dir : option (option cpp_tree)) : gset string :=
  match cpp_dir with
  | Some (Some t) => extract_xml xml_dir ∪ extract_cpp t
  | _ => extract_xml xml_dir
  end.

End PerCatalog.
Export PerCatalog.

(** ** Sample directories *)

Module Examples.

Definition en_catalog : document :=
  {| doc_locale := Some (PStr "en");
     doc_translations := Some (Some [("B", PStr "B"); ("A", PStr "A")]);
     doc_others := [] |}.

Definition de_catalog : document :=
  {| doc_locale := Some (PStr "de");
     doc_translations := Some (Some [("B", PStr ""); ("A", PStr "A-de")]);
     doc_others := [] |}.

(** An English and a German catalog, and an empty file [fr.yml]. *)
Definition sample_dir : directory :=
  {| files := [("en", Parsed (TMap en_catalog));
               ("de", Parsed (TMap de_catalog));
               ("fr", Parsed TNone)];
     written := [] |}.

(** A directory with a file the YAML library rejects. *)
Definition broken_dir : directory :=
  {| files := [("en", Parsed (TMap en_catalog)); ("de", Unparseable)];
     written := [] |}.

(** A document with neither a locale nor translations. *)
Definition notes : document :=
  {| doc_locale := None;
     doc_translations := None;
     doc_others := [("title", PStr "Notes")] |}.

(** A directory with a file that holds plain text and a file that holds a
    mapping of another kind. *)
Definition text_dir : directory :=
  {| files := [("de", Parsed (TScalar "not a catalog")); ("it", Parsed (TMap notes))];
     written := [] |}.

(** A catalog with a key that is no longer used, once marked and once not. *)
Definition stale_dir : directory :=
  {| files :=
       [("en", Parsed (TMap
           {| doc_locale := Some (PStr "en");
              doc_translations :=
                Some (Some [("Used", PStr "Used"); ("Stale", PStr "Old value")]);
              doc_others := [] |}));
        ("de", Parsed (TMap
           {| doc_locale := Some (PStr "de");
              doc_translations :=
                Some (Some [("Stale", PStr "[DEPRECATED] Alt"); ("Used", PStr "Benutzt")]);
              doc_others := [] |}))];
     written := [] |}.

End Examples.
Export Examples.

(** ** Further vocabulary *)

Module More.

(** The number of new keys a catalog lacks. *)
Definition missing_count (new_keys : gset string) (d : document) : Z :=
  Z.of_nat (length (filter (fun k => dict_get k (translations_of d) = None)
                           (elements new_keys))).

(** The paths of the files for whose catalog a count is positive, in the
    order of the directory. *)
Definition counted_paths (count : document -> Z) (fs : directory) : list string :=
  (filter (fun e => 0 < entry_count count e) (files fs)).*1.

(** The keys of the base catalog that a catalog has no translation for, in
    the order of the base catalog. *)
Definition untranslated (base_keys : list string) (t : dict string value) : list string :=
  filter (fun k => is_translated t k = false) base_keys.

(** What a turn of the loop of [get_missing_translations] does to its
    result. *)
Definition missing_account (base_locale : string) (base : dict string value)
    (p : string) (d : document) (result : dict value (list string))
  : dict value (list string) :=
  if decide (get_locale p d = PStr base_locale) then result
  else
    match untranslated (dict_keys base) (translations_of d) with
    | [] => result
    | missing => dict_set (get_locale p d) (sorted_strings missing) result
    end.

(** The locale and the keys that [get_missing_translations] reports for the
    catalog an entry holds, if it reports any. *)
Definition entry_missing (base_locale : string) (base : dict string value)
    (e : string * file_content) : option (value * list string) :=
  match load_content e.2 with
  | Returns d =>
      if decide (get_locale e.1 d = PStr base_locale) then None
      else
        match untranslated (dict_keys base) (translations_of d) with
        | [] => None
        | missing => Some (get_locale e.1 d, sorted_strings missing)
        end
  | Raises _ => None
  end.

(** No two files of the directory hold catalogs with the same locale. *)
Definition distinct_locales (fs : directory) : Prop :=
  NoDup (entry_locale <$> files fs).

Global Instance distinct_locales_dec fs : Decision (distinct_locales fs).
Proof. unfold distinct_locales. apply _. Defined.

(** *** [merge_new_keys_with_sources], catalog by catalog *)

(** [isinstance(translations, CommentedMap)] at the loop over the new keys:
    a mapping the code has just made is a plain dictionary. *)
Definition commented_of (is_CommentedMap : document -> bool) (d : document) : bool :=
  match doc_translations d with
  | Some (Some _) => is_CommentedMap d
  | _ => false
  end.

(** The loop [for key, sources in new_keys_with_sources.items()] on the
    translations of one catalog. *)
Definition source_translations (RUAMEL_AVAILABLE : bool)
    (is_CommentedMap : document -> bool)
    (new_keys_with_sources : dict string (list (string * Z)))
    (p : string) (d : document) : dict string value * dict string string * Z :=
  fold_left (merge_source_key RUAMEL_AVAILABLE (commented_of is_CommentedMap d)
                              (get_locale p d))
            new_keys_with_sources (translations_of d, [], 0).

Definition source_effect (RUAMEL_AVAILABLE : bool) (is_CommentedMap : document -> bool)
    (new_keys_with_sources : dict string (list (string * Z))) (dry_run : bool)
    (p : string) (d : document) : option document :=
  let r := source_translations RUAMEL_AVAILABLE is_CommentedMap
                               new_keys_with_sources p d in
  if (0 <? r.2) && negb dry_run
  then Some (set_translations (Some (dict_of_items (sorted_items r.1.1))) d)
  else None.

Definition source_account (RUAMEL_AVAILABLE : bool) (is_CommentedMap : document -> bool)
    (new_keys_with_sources : dict string (list (string * Z)))
    (p : string) (d : document) (result : MergeResult) : MergeResult :=
  let n := (source_translations RUAMEL_AVAILABLE is_CommentedMap
                                new_keys_with_sources p d).2 in
  if 0 <? n then
    {| keys_added := keys_added result + n;
       files_modified := files_modified result + 1;
       keys_per_file := dict_set (p +:+ ".yml") n (keys_per_file result) |}
  else result.

(** A computation that leaves the directory and the log of written files as
    they are, whatever it returns or raises. *)
Definition readonly {A : Type} (m : M A) : Prop := ∀ fs, (m fs).2 = fs.

End More.
Export More.

(** * Properties *)

(** ** Lists *)

Lemma filter_ext_elem_of {A : Type} (P Q : A → Prop)
    `{!∀ x, Decision (P x), !∀ x, Decision (Q x)} (l : list A) :
  (∀ x, x ∈ l → P x ↔ Q x) → filter P l = filter Q l.
Proof.
  induction l as [|x l IH]; intros Hl; [done|].
  rewrite !filter_cons. rewrite IH by (intros y Hy; apply Hl; by right).
  pose proof (Hl x (list_elem_of_here x l)) as Hx.
  destruct (decide (P x)), (decide (Q x)); tauto.
Qed.

Lemma filter_none {A : Type} (P : A → Prop) `{!∀ x, Decision (P x)} (l : list A) :
  (∀ x, x ∈ l → ¬ P x) → filter P l = [].
Proof.
  induction l as [|x l IH]; intros Hl; [done|].
  rewrite filter_cons_False by (apply Hl; left).
  apply IH. intros y Hy. apply Hl. by right.
Qed.

Lemma filter_all {A : Type} (P : A → Prop) `{!∀ x, Decision (P x)} (l : list A) :
  (∀ x, x ∈ l → P x) → filter P l = l.
Proof.
  induction l as [|x l IH]; intros Hl; [done|].
  rewrite filter_cons_True by (apply Hl; left).
  f_equal. apply IH. intros y Hy. apply Hl. by right.
Qed.

(** ** Dictionaries *)

Section DictFacts.
Context {K : Type} `{EqDecision K} {V : Type}.
Implicit Types (d pre rest : dict K V) (k : K) (v c : V).

Lemma dict_get_Some_elem k v d : dict_get k d = Some v → (k, v) ∈ d.
Proof.
induction d as [|[k' v'] d IH]; simpl; [done|].
case_decide; intros; simplify_eq; [left | right; auto].
Qed.

Lemma dict_get_None k d : dict_get k d = None ↔ k ∉ d.*1.
Proof.
induction d as [|[k' v'] d IH]; simpl.
- split; [intros _; apply not_elem_of_nil | done].
- rewrite not_elem_of_cons, <- IH. case_decide; split; try done.
+ by intros [? _].
+ by intros [_ ?].
Qed.

Lemma dict_get_is_Some k d : is_Some (dict_get k d) ↔ k ∈ d.*1.
Proof.
rewrite <- not_eq_None_Some, dict_get_None.
destruct (decide (k ∈ d.*1)); naive_solver.
Qed.

Lemma dict_contains_true k d : dict_contains k d = true ↔ k ∈ d.*1.
Proof.
rewrite <- dict_get_is_Some. unfold dict_contains.
destruct (dict_get k d); split; intros; try done; by destruct H0.
Qed.

Lemma dict_contains_false k d : dict_contains k d = false ↔ dict_get k d = None.
Proof. unfold dict_contains. destruct (dict_get k d); naive_solver. Qed.

Lemma dict_get_elem_of k v d : dict_ok d → (k, v) ∈ d → dict_get k d = Some v.
Proof.
unfold dict_ok. induction d as [|[k' v'] d IH]; simpl.
- intros _ Hin. by apply elem_of_nil in Hin.
- rewrite NoDup_cons. intros [Hk Hd] [Heq|Hin]%elem_of_cons.
+ simplify_eq. by rewrite decide_True.
+ case_decide as Hkk; [|auto]. subst k'. destruct Hk.
apply list_elem_of_fmap. by exists (k, v).
Qed.

Lemma dict_get_set_eq k v d : dict_get k (dict_set k v d) = Some v.
Proof.
induction d as [|[k' v'] d IH]; simpl.
- by rewrite decide_True.
- case_decide as Hk; simpl; [by rewrite decide_True | by rewrite decide_False].
Qed.

Lemma dict_get_set_ne k k' v d : k ≠ k' → dict_get k' (dict_set k v d) = dict_get k' d.
Proof.
intros Hne. induction d as [|[k0 v0] d IH]; simpl.
- case_decide; congruence.
- repeat (case_decide; simpl); congruence.
Qed.

Lemma dict_keys_set_present k v d : k ∈ d.*1 → (dict_set k v d).*1 = d.*1.
Proof.
induction d as [|[k0 v0] d IH]; simpl.
- intros Hin. by apply elem_of_nil in Hin.
- intros Hin. case_decide; simpl; [done|]. f_equal. apply IH.
apply elem_of_cons in Hin as [?|?]; [congruence | done].
Qed.

Lemma dict_set_fresh k v d : k ∉ d.*1 → dict_set k v d = d ++ [(k, v)].
Proof.
induction d as [|[k0 v0] d IH]; simpl; [done|].
rewrite not_elem_of_cons. intros [Hne Hnin].
rewrite decide_False by done. by rewrite IH.
Qed.

Lemma dict_ok_set k v d : dict_ok d → dict_ok (dict_set k v d).
Proof.
unfold dict_ok. intros Hd. destruct (decide (k ∈ d.*1)) as [Hin|Hnin].
- by rewrite dict_keys_set_present.
- rewrite dict_set_fresh, fmap_app by done. simpl.
apply NoDup_app. split_and!; [done | | apply NoDup_singleton].
intros x Hx ->%list_elem_of_singleton. done.
Qed.

Lemma dict_get_app_fresh pre k c rest :
k ∉ pre.*1 → dict_get k (pre ++ (k, c) :: rest) = Some c.
Proof.
induction pre as [|[k0 v0] pre IH]; simpl.
- intros _. by rewrite decide_True.
- rewrite not_elem_of_cons. intros [Hne Hnin]. by rewrite decide_False, IH.
Qed.

Lemma dict_set_app_fresh pre k v c rest :
k ∉ pre.*1 → dict_set k v (pre ++ (k, c) :: rest) = pre ++ (k, v) :: rest.
Proof.
induction pre as [|[k0 v0] pre IH]; simpl.
- intros _. by rewrite decide_True.
- rewrite not_elem_of_cons. intros [Hne Hnin]. by rewrite decide_False, IH.
Qed.




Lemma dict_get_perm k d d' : d ≡ₚ d' → dict_ok d → dict_get k d = dict_get k d'.
Proof.
intros Hp Hd.
assert (dict_ok d') as Hd'.
{ unfold dict_ok in *. by rewrite <- Hp. }
destruct (dict_get k d) as [v|] eqn:Hg.
- symmetry. apply dict_get_elem_of; [done|].
rewrite <- Hp. by apply dict_get_Some_elem.
- symmetry. apply dict_get_None. apply dict_get_None in Hg. by rewrite <- Hp.
Qed.

Lemma dict_ok_perm d d' : d ≡ₚ d' → dict_ok d → dict_ok d'.
Proof. unfold dict_ok. by intros ->. Qed.
End DictFacts.

(** ** Sorting the items of a dictionary *)

Section SortFacts.
Context {V : Type}.
Implicit Types (d : dict string V) (k : string).

Global Instance item_le_trans : Transitive (@item_le V).
Proof. intros a b c. unfold item_le. apply transitivity. Qed.

Global Instance item_le_total : Total (@item_le V).
Proof. intros a b. unfold item_le. apply String.le_total. Qed.

Lemma sorted_items_perm d : sorted_items d ≡ₚ d.
Proof. apply merge_sort_Permutation. Qed.

Lemma sorted_items_sorted d : StronglySorted item_le (sorted_items d).
Proof. apply StronglySorted_merge_sort; apply _. Qed.

Lemma dict_ok_sorted d : dict_ok d → dict_ok (sorted_items d).
Proof. intros Hd. eapply dict_ok_perm; [symmetry; apply sorted_items_perm | done]. Qed.

Lemma dict_get_sorted k d : dict_ok d → dict_get k (sorted_items d) = dict_get k d.
Proof.
intros Hd. apply dict_get_perm; [apply sorted_items_perm | by apply dict_ok_sorted].
Qed.

Lemma sorted_items_keys k d : k ∈ (sorted_items d).*1 ↔ k ∈ d.*1.
Proof. by rewrite sorted_items_perm. Qed.

(** Sorted items with distinct keys have their keys in strictly increasing
order. *)
Lemma sorted_by_key_intro d : StronglySorted item_le d → dict_ok d → sorted_by_key d.
Proof.
unfold sorted_by_key, dict_ok, dict_keys.
induction 1 as [|[k v] d Hs IH Hall]; simpl; intros Hnd; [constructor|].
apply NoDup_cons in Hnd as [Hk Hnd]. constructor; [auto|].
apply Forall_fmap. rewrite Forall_forall in Hall. apply Forall_forall.
intros [k' v'] Hin. split; [exact (Hall _ Hin)|].
simpl. intros ->. apply Hk, list_elem_of_fmap. by exists (k', v').
Qed.

Lemma sorted_by_key_sorted_items d : dict_ok d → sorted_by_key (sorted_items d).
Proof.
intros Hd. apply sorted_by_key_intro; [apply sorted_items_sorted | by apply dict_ok_sorted].
Qed.

End SortFacts.

(** ** Loops over the files of the directory *)

Section LoopFacts.
Context {S : Type}.
Variable RUAMEL_AVAILABLE : bool.
Variable effect : string -> document -> option document.
Variable account : string -> document -> S -> S.

Local Abbreviation file_body := (file_body RUAMEL_AVAILABLE effect account).
Local Abbreviation run_files := (run_files RUAMEL_AVAILABLE effect account).
Local Abbreviation apply_effect := (apply_effect RUAMEL_AVAILABLE effect).
Local Abbreviation account_entry := (account_entry account).
Local Abbreviation is_written := (is_written effect).

Lemma for_each_ext {A : Type} (l : list A) (body1 body2 : A -> S -> M S) s fs :
(∀ x s fs, body1 x s fs = body2 x s fs) →
for_each l body1 s fs = for_each l body2 s fs.
Proof.
intros Hb. revert s fs. induction l as [|x l IH]; intros s fs; simpl; [done|].
unfold mbind, M_bind. rewrite Hb. destruct (body2 x s fs) as [[s'|e] fs']; auto.
Qed.

(** One turn of the loop on a file of the directory. *)
Lemma file_body_run p c s fs :
dict_get p (files fs) = Some c →
file_body p s fs =
match load_content c with
| Raises e => (Raises e, fs)
| Returns d =>
match effect p d with
| Some d' =>
(Returns (account p d s),
{| files := dict_set p (Parsed (TMap (dumped RUAMEL_AVAILABLE d'))) (files fs);
written := written fs ++ [p] |})
| None => (Returns (account p d s), fs)
end
end.
Proof.
intros Hc. unfold Run.file_body, load_yaml_file, yaml_load, mbind, M_bind, mret, M_ret.
rewrite Hc. destruct c as [|[|d|str]]; simpl; try done;
[|destruct (doc_bool d)|destruct (str_bool str)]; simpl; try done;
(destruct (effect p _) as [d'|]; [|done]);
unfold save_yaml_file, dumped, yaml_dump; by destruct RUAMEL_AVAILABLE.
Qed.

(** The loop over the paths of the directory is the run over its
entries. *)
Lemma for_each_run_files pre entries s w :
NoDup ((pre ++ entries).*1) →
for_each (entries.*1) file_body s {| files := pre ++ entries; written := w |} =
(let '(o, es, ws) := run_files entries s in
(o, {| files := pre ++ es; written := w ++ ws |})).
Proof.
revert pre s w. induction entries as [|[p c] rest IH]; intros pre s w Hnd; simpl.
- by rewrite !app_nil_r.
- assert (p ∉ pre.*1) as Hp.
{ rewrite fmap_app in Hnd. apply NoDup_app in Hnd as (_ & Hdisj & _).
intros Hin. apply (Hdisj p Hin). simpl. left. }
unfold mbind at 1, M_bind at 1.
rewrite (file_body_run p c); [|by apply dict_get_app_fresh].
destruct (load_content c) as [d|e]; simpl; [|by rewrite app_nil_r].
destruct (effect p d) as [d'|]; simpl.
+ rewrite dict_set_app_fresh by done.
rewrite (cons_middle _ pre rest), app_assoc.
rewrite IH.
* destruct (run_files rest (account p d s)) as [[o es] ws].
by rewrite <- !app_assoc.
* rewrite <- app_assoc. simpl. by rewrite !fmap_app in *.
+ rewrite (cons_middle _ pre rest), app_assoc.
rewrite IH.
* destruct (run_files rest (account p d s)) as [[o es] ws].
by rewrite <- !app_assoc.
* by rewrite <- app_assoc.
Qed.



(** A run that returns has taken every entry in turn. *)
Lemma run_files_Returns entries s s' es ws :
run_files entries s = (Returns s', es, ws) →
Forall (fun e => ∃ d, load_content e.2 = Returns d) entries ∧
es = apply_effect <$> entries ∧
s' = fold_left account_entry entries s ∧
ws = (filter (fun e => is_written e = true) entries).*1.
Proof.
revert s s' es ws. induction entries as [|[p c] rest IH]; intros s s' es ws; simpl.
- intros [= <- <- <-]. by repeat split.
- unfold Run.apply_effect, Run.account_entry, Run.is_written. simpl.
destruct (load_content c) as [d|e] eqn:Hc; [|done].
destruct (run_files rest (account p d s)) as [[o1 es1] ws1] eqn:Hr.
destruct (effect p d) as [d'|] eqn:He; intros [= -> <- <-];
destruct (IH _ _ _ _ Hr) as (IH1 & IH2 & IH3 & IH4); subst.
+ split_and!; [constructor; eauto | done | done |].
rewrite filter_cons_True; [done|]. simpl. rewrite Hc, He.
by apply bool_decide_eq_true.
+ split_and!; [constructor; eauto | done | done |].
rewrite filter_cons_False; [done|]. simpl. rewrite Hc, He.
intros [? [=]]%bool_decide_eq_true.
Qed.

(** A run over entries that all load returns. *)
Lemma run_files_total entries s :
Forall (fun e => ∃ d, load_content e.2 = Returns d) entries →
∃ s' es ws, run_files entries s = (Returns s', es, ws).
Proof.
intros Hall. revert s. induction Hall as [|[p c] rest [d Hd] _ IH]; intros s; simpl.
- eauto.
- simpl in Hd. rewrite Hd.
destruct (IH (account p d s)) as (s' & es & ws & ->).
destruct (effect p d); eauto.
Qed.
End LoopFacts.

(** ** Saving and loading again *)

Section DumpFacts.
Variable RUAMEL_AVAILABLE : bool.
Implicit Types (d : document) (p k : string).







Lemma doc_ok_set t d : doc_ok d → dict_ok t → doc_ok (set_translations (Some t) d).
Proof. intros [_ Ho] Ht. by split. Qed.

(** A document saved with its translations field set loads as it was
saved. *)
Lemma load_content_dumped t d :
load_content (Parsed (TMap (dumped RUAMEL_AVAILABLE (set_translations t d)))) =
Returns (dumped RUAMEL_AVAILABLE (set_translations t d)).
Proof.
unfold dumped, load_content, sort_keys, set_translations.
destruct RUAMEL_AVAILABLE; simpl; unfold doc_bool; simpl;
by destruct (doc_locale d), t.
Qed.

End DumpFacts.

(** ** The catalogs of a directory *)

Lemma catalog_Some fs p d :
  catalog fs p = Some d ↔ ∃ c, dict_get p (files fs) = Some c ∧ load_content c = Returns d.
Proof.
  unfold catalog. destruct (dict_get p (files fs)) as [c|].
  - destruct (load_content c) as [d'|e] eqn:Hc; split.
    + intros [= ->]. eauto.
    + intros (c' & [= <-] & Hc'). congruence.
    + done.
    + intros (c' & [= <-] & Hc'). congruence.
  - split; [done | by intros (? & ? & ?)].
Qed.


Lemma doc_ok_empty_catalog : doc_ok empty_catalog.
Proof. split; unfold dict_ok; simpl; constructor. Qed.

Lemma content_ok_load c d : content_ok c → load_content c = Returns d → doc_ok d.
Proof.
  destruct c as [|[|d'|s]]; simpl.
  - done.
  - intros _ ?. simplify_eq. apply doc_ok_empty_catalog.
  - destruct (doc_bool d'); intros ? ?; simplify_eq; [done|]. apply doc_ok_empty_catalog.
  - destruct (str_bool s); intros ? ?; simplify_eq. apply doc_ok_empty_catalog.
Qed.



Lemma dict_get_Forall2_None {A B : Type} (R : string * A → string * B → Prop)
    (l : dict string A) (l' : dict string B) p :
  Forall2 (fun e e' => e'.1 = e.1 ∧ R e e') l l' →
  dict_get p l = None → dict_get p l' = None.
Proof.
  induction 1 as [|[q a] [q' b] l l' [Hq HR] _ IH]; simpl; [done|].
  simpl in Hq. subst q'. by case_decide.
Qed.


(** ** merge_new_keys: one catalog *)

Section MergeFacts.
Implicit Types (t : dict string value) (k key : string) (l : list string) (n : Z).
Implicit Types (d : document) (keys : gset string).
Local Arguments merge_key : simpl never.

Lemma merge_key_get locale t n key k :
dict_get k (merge_key locale (t, n) key).1 =
match dict_get k t with
| Some v => Some v
| None => if decide (k = key) then Some (new_value locale k) else None
end.
Proof.
unfold merge_key. destruct (dict_contains key t) eqn:Hc; simpl.
- destruct (dict_get k t) eqn:Hk; [done|]. case_decide as Heq; [|done].
subst. unfold dict_contains in Hc. by rewrite Hk in Hc.
- apply dict_contains_false in Hc. destruct (decide (k = key)) as [->|Hne].
+ by rewrite dict_get_set_eq, Hc.
+ rewrite dict_get_set_ne by done. by destruct (dict_get k t).
Qed.

Lemma merge_fold_get locale l t n k :
dict_get k (fold_left (merge_key locale) l (t, n)).1 =
match dict_get k t with
| Some v => Some v
| None => if decide (k ∈ l) then Some (new_value locale k) else None
end.
Proof.
revert t n. induction l as [|key l IH]; intros t n; simpl.
- destruct (dict_get k t); [done|].
by destruct (decide (k ∈ [])) as [?%elem_of_nil|].
- pose proof (merge_key_get locale t n key k) as Hg.
destruct (merge_key locale (t, n) key) as [t1 n1]. rewrite IH. simpl in Hg. rewrite Hg.
destruct (dict_get k t); [done|]. destruct (decide (k = key)) as [->|Hne].
+ rewrite decide_True; [done | left].
+ destruct (decide (k ∈ l)).
* rewrite decide_True; [done | by right].
* rewrite decide_False; [done|]. by intros [?|?]%elem_of_cons.
Qed.

Lemma merge_fold_count locale l t n :
n ≤ (fold_left (merge_key locale) l (t, n)).2 ∧
((fold_left (merge_key locale) l (t, n)).2 = n ↔ ∀ k, k ∈ l → dict_get k t ≠ None).
Proof.
revert t n. induction l as [|key l IH]; intros t n; simpl.
- split; [lia|]. split; [|done]. intros _ k Hk. by apply elem_of_nil in Hk.
- unfold merge_key at 2 4. destruct (dict_contains key t) eqn:Hc; simpl.
+ destruct (IH t n) as [Hle Hiff]. split; [done|]. rewrite Hiff. split.
* intros Hall k [->|Hk]%elem_of_cons; [|auto].
unfold dict_contains in Hc. by destruct (dict_get key t).
* intros Hall k Hk. apply Hall. by right.
+ destruct (IH (dict_set key (if decide (locale = PStr "en") then PStr key else PStr "") t)
 (n + 1)) as [Hle _].
split; [lia|]. split; [lia|]. intros Hall.
apply dict_contains_false in Hc. exfalso. apply (Hall key); [left | done].
Qed.

Lemma merge_fold_ok locale l t n :
dict_ok t → dict_ok (fold_left (merge_key locale) l (t, n)).1.
Proof.
revert t n. induction l as [|key l IH]; intros t n Ht; simpl; [done|].
unfold merge_key at 2. destruct (dict_contains key t); simpl; apply IH;
first [done | by apply dict_ok_set].
Qed.

Lemma merge_count_nonneg keys p d : 0 ≤ merge_count keys p d.
Proof. apply merge_fold_count. Qed.








(** The loop of [merge_new_keys] is a run over the entries of the
directory. *)
Lemma merge_new_keys_run ruamel keys dry_run fs :
dict_ok (files fs) →
merge_new_keys ruamel keys dry_run fs =
(let '(o, es, ws) :=
run_files ruamel (merge_effect keys dry_run) (merge_account keys)
(files fs) MergeResult_default in
(o, {| files := es; written := written fs ++ ws |})).
Proof.
intros Hok. unfold merge_new_keys, mbind at 1, M_bind at 1, glob_yml.
rewrite (for_each_ext _ _
(file_body ruamel (merge_effect keys dry_run) (merge_account keys))).
- destruct fs as [entries w]. by apply (for_each_run_files _ _ _ [] entries).
- intros p result fs'. unfold file_body, mbind, M_bind.
destruct (load_yaml_file p fs') as [[[|d|s]|e] fs1]; simpl; try done.
unfold merge_effect, merge_account, merge_count, merged_document,
merge_translations, translations_of, get_translations, or_empty.
destruct (doc_translations d) as [[t|]|]; simpl;
destruct (fold_left _ _ _) as [t' n]; simpl;
destruct (0 <? n); simpl; try done; by destruct dry_run.
Qed.
End MergeFacts.

(** ** The catalogs before and after a run *)

Section RunCatalogs.
Context {S : Type}.
Variable RUAMEL_AVAILABLE : bool.
Variable effect : string -> document -> option document.
Variable account : string -> document -> S -> S.
(** What a turn saves loads again as it was saved. *)
Hypothesis effect_reloads : ∀ p d d',
effect p d = Some d' →
load_content (Parsed (TMap (dumped RUAMEL_AVAILABLE d'))) =
Returns (dumped RUAMEL_AVAILABLE d').

Local Abbreviation run_files := (run_files RUAMEL_AVAILABLE effect account).
Local Abbreviation apply_effect := (apply_effect RUAMEL_AVAILABLE effect).










End RunCatalogs.

(** ** merge_new_keys: the directory *)

Lemma loads_Returns e : loads e ↔ ∃ d, load_content e.2 = Returns d.
Proof.
  unfold loads. destruct (load_content e.2) as [d|x]; split; try done; eauto.
  by intros [? ?].
Qed.

Lemma all_load_Returns fs :
  all_load fs ↔ Forall (fun e => ∃ d, load_content e.2 = Returns d) (files fs).
Proof. unfold all_load. apply Forall_proper; [|done]. intros e. apply loads_Returns. Qed.







(** A run over a directory in which every file loads returns. *)
Lemma merge_new_keys_returns ruamel keys dry_run fs :
  dir_ok fs → all_load fs →
  ∃ result es ws,
    run_files ruamel (merge_effect keys dry_run) (merge_account keys)
              (files fs) MergeResult_default = (Returns result, es, ws) ∧
    merge_new_keys ruamel keys dry_run fs =
      (Returns result, {| files := es; written := written fs ++ ws |}).
Proof.
  intros Hok Hall. rewrite merge_new_keys_run by apply Hok.
  apply all_load_Returns in Hall.
  destruct (run_files_total ruamel (merge_effect keys dry_run) (merge_account keys)
              (files fs) MergeResult_default Hall) as (r & es & ws & Hrun).
  rewrite Hrun. by exists r, es, ws.
Qed.








(** [merge_new_keys] returns exactly when every file of the directory loads;
    a file that does not load stops the run where it is. *)
Lemma merge_new_keys_returns_iff ruamel (new_keys : gset string) dry_run fs :
  dir_ok fs →
  (∃ result fs', merge_new_keys ruamel new_keys dry_run fs = (Returns result, fs')) ↔
  all_load fs.
Proof.
  intros Hok. split.
  - intros (result & fs' & Hrun). rewrite merge_new_keys_run in Hrun by apply Hok.
    destruct (run_files _ _ _ _ _) as [[o es] ws] eqn:Hfiles. simplify_eq.
    apply all_load_Returns. by apply run_files_Returns in Hfiles as (? & _).
  - intros Hall.
    destruct (merge_new_keys_returns ruamel new_keys dry_run fs Hok Hall)
      as (r & es & ws & _ & ->). eauto.
Qed.

Example merge_new_keys_broken :
  merge_new_keys true {["C"]} false broken_dir =
    (Raises YAMLError,
     {| files :=
          [("en", Parsed (TMap
              {| doc_locale := Some (PStr "en");
                 doc_translations :=
                   Some (Some [("A", PStr "A"); ("B", PStr "B"); ("C", PStr "C")]);
                 doc_others := [] |}));
           ("de", Unparseable)];
        written := ["en"] |}).
Proof. reflexivity. Qed.

(** ** mark_obsolete_keys: one catalog *)

Section MarkFacts.
Implicit Types (t : dict string value) (k key : string) (l : list string) (n : Z).
Implicit Types (d : document) (keys : gset string) (v : value) (m : bool).
Local Arguments mark_key : simpl never.

Lemma is_marked_prefixed s : is_marked (PStr ("[DEPRECATED] " +:+ s)) = true.
Proof. reflexivity. Qed.

(** A marked value is not marked again. *)
Lemma marked_value_marked v : is_marked (marked_value v) = true.
Proof.
unfold marked_value. destruct (is_marked v) eqn:Hv; [done|]. apply is_marked_prefixed.
Qed.

Lemma marked_value_idemp v : marked_value (marked_value v) = marked_value v.
Proof. unfold marked_value at 1. by rewrite marked_value_marked. Qed.

Lemma mark_key_unfold t m n key :
mark_key (t, m, n) key =
if markable t key
then (dict_set key (marked_value (default PNone (dict_get key t))) t, true, n + 1)
else (t, m, n).
Proof.
unfold mark_key, markable, marked_value, is_marked.
destruct (dict_get key t) as [v|]; [|done]. simpl.
by destruct (startswith (str v) "[DEPRECATED]").
Qed.

Lemma mark_key_get t m n key k :
dict_get k (mark_key (t, m, n) key).1.1 =
if decide (k = key) then marked_value <$> dict_get k t else dict_get k t.
Proof.
rewrite mark_key_unfold. unfold markable.
destruct (decide (k = key)) as [->|Hne].
- destruct (dict_get key t) as [v|] eqn:Hk; simpl; [|by rewrite Hk].
destruct (is_marked v) eqn:Hv; simpl.
+ rewrite Hk. simpl. unfold marked_value. by rewrite Hv.
+ by rewrite dict_get_set_eq.
- destruct (dict_get key t) as [v|]; simpl; [|done].
destruct (is_marked v); simpl; [done|]. by rewrite dict_get_set_ne.
Qed.


Lemma markable_other t m n key k :
k ≠ key → markable (mark_key (t, m, n) key).1.1 k = markable t k.
Proof.
intros Hne. unfold markable. by rewrite mark_key_get, decide_False.
Qed.










Lemma translations_of_falsy d : dict_bool (get_translations d) = false → translations_of d = [].
Proof.
unfold translations_of, get_translations.
by destruct (doc_translations d) as [[[|]|]|].
Qed.


Lemma mark_effect_reloads ruamel keys dry_run p d d' :
mark_effect keys dry_run p d = Some d' →
load_content (Parsed (TMap (dumped ruamel d'))) = Returns (dumped ruamel d').
Proof.
unfold mark_effect, counted_effect. destruct (_ && _); [|done]. intros [= <-].
apply load_content_dumped.
Qed.

End MarkFacts.

(** ** delete_obsolete_keys: one catalog *)

Section DeleteFacts.
Implicit Types (t pre : dict string value) (k key : string) (n : Z) (m : bool).
Implicit Types (d : document) (keys : gset string) (l : list string).
Local Arguments delete_key : simpl never.















Lemma delete_effect_reloads ruamel keys dry_run p d d' :
delete_effect keys dry_run p d = Some d' →
load_content (Parsed (TMap (dumped ruamel d'))) = Returns (dumped ruamel d').
Proof.
unfold delete_effect, counted_effect. destruct (_ && _); [|done]. intros [= <-].
apply load_content_dumped.
Qed.

End DeleteFacts.

(** ** Runs that count and change *)

Section CountedRuns.
Variable RUAMEL_AVAILABLE : bool.
Variable count : document → Z.
Variable change : document → document.
Hypothesis count_nonneg : ∀ d, 0 ≤ count d.
Hypothesis change_reloads : ∀ d,
load_content (Parsed (TMap (dumped RUAMEL_AVAILABLE (change d)))) =
Returns (dumped RUAMEL_AVAILABLE (change d)).
Hypothesis count_changed : ∀ d,
doc_ok d → count (dumped RUAMEL_AVAILABLE (change d)) = 0.










End CountedRuns.

(** ** mark_obsolete_keys and delete_obsolete_keys: the directory *)








(** ** load_yaml_file *)

(** What [load_yaml_file] does with each content of a file. *)
Lemma load_yaml_file_run fs p :
  load_yaml_file p fs =
    (match dict_get p (files fs) with
     | None => Raises FileNotFoundError
     | Some Unparseable => Raises YAMLError
     | Some (Parsed data) => Returns (if top_bool data then data else TMap empty_catalog)
     end, fs).
Proof.
  unfold load_yaml_file, yaml_load, mbind, M_bind.
  by destruct (dict_get p (files fs)) as [[|data]|].
Qed.

(** A file that holds plain text loads as that text, and a mapping without
    the fields of a catalog loads as it is: neither is replaced by the empty
    catalog. *)
Example load_yaml_file_text :
  load_yaml_file "de" text_dir = (Returns (TScalar "not a catalog"), text_dir).
Proof. reflexivity. Qed.

Example load_yaml_file_unstructured :
  load_yaml_file "it" text_dir = (Returns (TMap notes), text_dir).
Proof. reflexivity. Qed.




(** ** find_obsolete_keys *)

Section FindObsolete.
Context {xml_tree cpp_tree : Type}.
Variable extract_xml : xml_tree → gset string.
Variable extract_cpp : cpp_tree → gset string.

Local Abbreviation find := (find_obsolete_keys xml_tree cpp_tree extract_xml extract_cpp).
Local Abbreviation used := (used_strings extract_xml extract_cpp).

Lemma translations_of_nil_iff d : translations_of d = [] ↔ no_translations d.
Proof.
unfold translations_of, get_translations, no_translations.
destruct (doc_translations d) as [[[|kv t]|]|]; simpl; split; intros H;
try done; auto; by destruct H as [?|[?|?]].
Qed.

Lemma dict_bool_translations d :
dict_bool (get_translations d) = false ↔ translations_of d = [].
Proof.
unfold translations_of, get_translations.
by destruct (doc_translations d) as [[[|kv t]|]|].
Qed.

(** What [find_obsolete_keys] returns, by the content of the base file. *)
Lemma find_obsolete_keys_run xml_dir base_locale cpp_dir fs :
find xml_dir base_locale cpp_dir fs =
(match dict_get base_locale (files fs) with
| None => Returns ∅
| Some c =>
match load_content c with
| Returns d =>
 Returns (list_to_set (dict_keys (translations_of d)) ∖ used xml_dir cpp_dir)
| Raises e => Raises e
end
end, fs).
Proof.
unfold find_obsolete_keys, path_exists, mbind at 1, M_bind at 1, dict_contains.
destruct (dict_get base_locale (files fs)) as [c|] eqn:Hc; simpl; [|done].
unfold mbind, M_bind. rewrite load_yaml_file_run, Hc.
destruct c as [|data]; simpl; [done|].
assert (∀ d, translations_of d = [] →
   (∅ : gset string) =
   list_to_set (dict_keys (translations_of d)) ∖ used xml_dir cpp_dir) as Hnil.
{ intros d ->. set_solver. }
destruct data as [|d|s]; simpl;
[|destruct (doc_bool d); simpl|destruct (str_bool s); simpl; [done|]];
try (unfold mret, M_ret; do 2 f_equal; set_solver).
destruct (dict_bool (get_translations d)) eqn:Hb; simpl; [done|].
unfold mret, M_ret. do 2 f_equal. by apply Hnil, dict_bool_translations.
Qed.

(** C6. The obsolete keys: when the base file is missing or loads as a
catalog, [find_obsolete_keys] returns, leaves the directory as it is, and
a key is in the set it returns exactly when it is a key of the catalog of
the base locale and is not among the strings found in the markup or,
when that directory is given and exists, in the C++ sources; so the set
shares no key with the strings in use, and a key that the base catalog
does not have is not in it, whatever the other catalogs hold. *)
Theorem find_obsolete_keys_spec xml_dir base_locale cpp_dir fs :
base_readable base_locale fs →
∃ obsolete,
find xml_dir base_locale cpp_dir fs = (Returns obsolete, fs) ∧
(∀ k, k ∈ obsolete ↔
k ∈ base_keys base_locale fs ∧ k ∉ used xml_dir cpp_dir) ∧
obsolete ## used xml_dir cpp_dir ∧
(∀ k, k ∉ base_keys base_locale fs → k ∉ obsolete).
Proof.
intros Hbase. rewrite find_obsolete_keys_run.
unfold base_readable, loads, base_keys, catalog in *.
destruct (dict_get base_locale (files fs)) as [c|]; simpl in *.
- destruct (load_content c) as [d|e]; [|done].
eexists. split; [done|]. set_solver.
- exists ∅. split; [done|]. set_solver.
Qed.

(** C10. Without keys of the base locale nothing is obsolete: when the base
file is missing, or loads as a catalog whose translations are missing,
[None] or empty, [find_obsolete_keys] returns the empty set, whatever the
strings in use are. *)
Theorem find_obsolete_keys_no_base xml_dir base_locale cpp_dir fs :
(dict_get base_locale (files fs) = None ∨
∃ d, catalog fs base_locale = Some d ∧ no_translations d) →
find xml_dir base_locale cpp_dir fs = (Returns ∅, fs).
Proof.
intros Hbase. rewrite find_obsolete_keys_run.
destruct Hbase as [->|(d & (c & -> & ->)%catalog_Some & Hnone%translations_of_nil_iff)];
[done|].
rewrite Hnone. do 2 f_equal. set_solver.
Qed.
End FindObsolete.

Lemma find_obsolete_keys_spec_witness :
  base_readable "en" sample_dir ∧
  ∃ obsolete,
    find_obsolete_keys (gset string) unit id (fun _ => ∅) {["A"]} "en" None sample_dir =
      (Returns obsolete, sample_dir) ∧
    (∀ k, k ∈ obsolete ↔
          k ∈ base_keys "en" sample_dir ∧
          k ∉ used_strings (cpp_tree := unit) id (fun _ => ∅) {["A"]} None).
Proof.
  assert (base_readable "en" sample_dir) as Hbase by compute_done.
  split; [exact Hbase|].
  destruct (find_obsolete_keys_spec (cpp_tree := unit) id (fun _ => ∅)
              {["A"]} "en" None sample_dir Hbase) as (obsolete & Hrun & Hiff & _).
  exists obsolete. by split.
Defined.

Lemma find_obsolete_keys_no_base_witness :
  (dict_get "it" (files sample_dir) = None ∨
   ∃ d, catalog sample_dir "it" = Some d ∧ no_translations d) ∧
  (∃ d, catalog sample_dir "fr" = Some d ∧ no_translations d) ∧
  find_obsolete_keys (gset string) unit id (fun _ => ∅) {["A"]} "it" None sample_dir =
    (Returns ∅, sample_dir) ∧
  find_obsolete_keys (gset string) unit id (fun _ => ∅) {["A"]} "fr" None sample_dir =
    (Returns ∅, sample_dir).
Proof.
  assert (dict_get "it" (files sample_dir) = None ∨
          ∃ d, catalog sample_dir "it" = Some d ∧ no_translations d) as Hit
    by (left; reflexivity).
  assert (∃ d, catalog sample_dir "fr" = Some d ∧ no_translations d) as Hfr.
  { exists empty_catalog. split; [reflexivity|]. right. right. reflexivity. }
  split; [exact Hit|]. split; [exact Hfr|]. split.
  - exact (find_obsolete_keys_no_base (cpp_tree := unit) id (fun _ => ∅)
             {["A"]} "it" None sample_dir Hit).
  - exact (find_obsolete_keys_no_base (cpp_tree := unit) id (fun _ => ∅)
             {["A"]} "fr" None sample_dir (or_intror Hfr)).
Defined.

(** ** calculate_coverage *)

Section CoverageFacts.
Implicit Types (t base : dict string value) (k key : string) (l : list string) (n : Z).
Implicit Types (d : document) (s : string).

Lemma strip_empty_bool s : str_bool s && str_bool (strip s) = str_bool (strip s).
Proof. by destruct s. Qed.

(** The test of [count_key] is the test of the specification. *)
Lemma count_key_unfold t n key :
count_key t n key = if is_translated t key then n + 1 else n.
Proof.
unfold count_key, is_translated.
destruct (dict_get key t) as [[|s]|]; simpl; try done.
by rewrite strip_empty_bool.
Qed.

Lemma count_fold t l n :
fold_left (count_key t) l n = n + translated_count l t.
Proof.
unfold translated_count. revert n. induction l as [|k l IH]; intros n.
- simpl. lia.
- cbn [fold_left]. rewrite IH, count_key_unfold, filter_cons.
destruct (is_translated t k) eqn:Hk.
+ rewrite decide_True by done. simpl length. lia.
+ rewrite decide_False by done. lia.
Qed.

Lemma translated_count_nil l : translated_count l [] = 0.
Proof. unfold translated_count. by rewrite filter_none. Qed.

Lemma round1_100 : round1 100 = 100%float.
Proof. reflexivity. Qed.

(** The statistics the loop computes for a catalog are those of the
specification. *)
Lemma coverage_turn base_locale (bt : option (dict string value)) p d :
let total_keys := if dict_bool bt then len (or_empty bt) else 0 in
let translations := get_translations d in
(if decide (get_locale p d = PStr base_locale) then
{| total := total_keys; translated := total_keys; missing := 0; percentage := 100 |}
else
let translated :=
if dict_bool translations then
fold_left (count_key (or_empty translations)) (dict_keys (or_empty bt)) 0
else 0 in
{| total := total_keys;
translated := translated;
missing := total_keys - translated;
percentage :=
round1 (if 0 <? total_keys then (truediv translated total_keys * 100)%float
      else 100%float) |}) =
coverage_of base_locale (or_empty bt) p d.
Proof.
intros total_keys translations. unfold coverage_of.
assert (total_keys = len (or_empty bt)) as ->.
{ unfold total_keys. by destruct bt as [[|]|]. }
case_decide; [done|].
assert ((if dict_bool translations
then fold_left (count_key (or_empty translations)) (dict_keys (or_empty bt)) 0
else 0) = translated_count (dict_keys (or_empty bt)) (translations_of d)) as ->.
{ unfold translations, translations_of.
destruct (dict_bool (get_translations d)) eqn:Hb.
- by rewrite count_fold.
- apply dict_bool_translations in Hb. unfold translations_of in Hb.
by rewrite Hb, translated_count_nil. }
f_equal. unfold len.
destruct (length (or_empty bt)) as [|m]; simpl; [apply round1_100 | done].
Qed.
End CoverageFacts.

Section CoverageRun.
Implicit Types (base : dict string value) (d : document) (l : value).

(** A run whose turns save nothing leaves the files as they are. *)
Lemma run_files_readonly {S : Type} ruamel (account : string → document → S → S)
entries (s : S) :
Forall (fun e => ∃ d, load_content e.2 = Returns d) entries →
run_files ruamel (fun _ _ => None) account entries s =
(Returns (fold_left (account_entry account) entries s), entries, []).
Proof.
intros Hall. revert s. induction Hall as [|[p c] rest [d Hd] _ IH]; intros s; simpl; [done|].
simpl in Hd. unfold account_entry at 2. simpl. by rewrite Hd, IH.
Qed.

(** The result maps a locale to the statistics of the last catalog with that
locale. *)
Lemma coverage_fold_get base_locale base es (r0 : dict value LanguageStats) l :
dict_get l (fold_left (account_entry (coverage_account base_locale base)) es r0) =
match last (filter (fun e => entry_locale e = Some l) es) with
| Some e => entry_coverage base_locale base e
| None => dict_get l r0
end.
Proof.
induction es as [|e es IH] using rev_ind; [done|].
rewrite fold_left_app, filter_app. simpl.
unfold account_entry at 1. unfold coverage_account, entry_coverage, entry_locale in *.
rewrite filter_cons, filter_nil.
destruct (load_content e.2) as [d|x] eqn:Hd.
- destruct (decide (Some (get_locale e.1 d) = Some l)) as [[= <-]|Hne].
+ by rewrite last_snoc, Hd, dict_get_set_eq.
+ rewrite app_nil_r, dict_get_set_ne by congruence. apply IH.
- rewrite decide_False by done. rewrite app_nil_r. apply IH.
Qed.

Lemma base_path_elem base_locale fs p :
base_path base_locale fs = Some p → ∃ c, dict_get p (files fs) = Some c.
Proof.
unfold base_path, dict_contains.
destruct (dict_get base_locale (files fs)) as [c|] eqn:Hc.
- intros [= <-]. eauto.
- unfold dict_keys. destruct (files fs) as [|[q c] rest]; simpl; [done|].
intros [= <-]. exists c. by rewrite decide_True.
Qed.

Lemma all_load_get fs p c :
all_load fs → dict_get p (files fs) = Some c → ∃ d, load_content c = Returns d.
Proof.
intros Hall%all_load_Returns Hc%dict_get_Some_elem.
rewrite Forall_forall in Hall. exact (Hall _ Hc).
Qed.

(** [calculate_coverage] on a directory in which every file loads. *)
Lemma calculate_coverage_run base_locale fs :
dir_ok fs → all_load fs →
calculate_coverage base_locale fs =
(Returns (fold_left (account_entry
               (coverage_account base_locale
                  (base_translations base_locale fs))) (files fs) []), fs).
Proof.
intros Hok Hall. unfold calculate_coverage, base_translations.
unfold mbind at 1 2, M_bind at 1 2, path_exists, glob_yml.
change (if dict_contains base_locale (files fs) then Some base_locale
else head (dict_keys (files fs))) with (base_path base_locale fs).
destruct (base_path base_locale fs) as [bp|] eqn:Hbp.
- destruct (base_path_elem _ _ _ Hbp) as [c Hc].
destruct (all_load_get _ _ _ Hall Hc) as [bd Hbd].
assert (catalog fs bp = Some bd) as -> by (apply catalog_Some; eauto).
unfold mbind at 1, M_bind at 1. rewrite load_yaml_file_run, Hc.
assert (∃ data, c = Parsed data ∧
        (if top_bool data then data else TMap empty_catalog) = TMap bd)
as (data & -> & Hdata).
{ destruct c as [|data]; [done|]. exists data. split; [done|]. simpl in Hbd.
by destruct (if top_bool data then data else TMap empty_catalog); simplify_eq. }
rewrite Hdata. unfold mbind at 1, M_bind at 1. simpl.
unfold mbind at 1, M_bind at 1.
rewrite (for_each_ext _ _
   (file_body true (fun _ _ => None)
      (coverage_account base_locale (translations_of bd)))).
+ destruct fs as [entries w]. simpl in *.
rewrite (for_each_run_files true _ _ [] entries) by apply Hok.
rewrite run_files_readonly by (by apply all_load_Returns in Hall).
by rewrite app_nil_r.
+ intros p result fs'. unfold file_body, mbind, M_bind.
destruct (load_yaml_file p fs') as [[[|d|s]|e] fs1]; simpl; try done.
unfold mret, M_ret, coverage_account. do 2 f_equal.
pose proof (coverage_turn base_locale (get_translations bd) p d) as Hturn.
simpl in Hturn. unfold translations_of.
destruct (decide (get_locale p d = PStr base_locale)); by rewrite <- Hturn.
- assert (files fs = []) as ->; [|done].
unfold base_path, dict_contains, dict_keys in Hbp.
destruct (files fs) as [|[q c] rest]; [done|]. simpl in *.
by destruct (decide (base_locale = q)), (dict_get base_locale rest).
Qed.
End CoverageRun.



(** ** The scenarios of the specification, run through the model *)

Example strip_sample : strip "  a b   " = "a b" ∧ strip "   " = "" ∧ strip "" = "".
Proof. repeat split; reflexivity. Qed.

Example round1_samples :
  round1 (truediv 2 3 * 100) = 66.7%float ∧
  round1 (truediv 1 16 * 100) = 6.2%float ∧
  round1 (truediv 1 2000 * 100) = 0.1%float ∧
  round1 (truediv 0 3 * 100) = 0%float.
Proof. repeat split; reflexivity. Qed.

(** Coverage of the German catalog with one of two keys translated. *)
Example coverage_sample :
  (calculate_coverage "en" sample_dir).1 =
    Returns
      [(PStr "en", {| total := 2; translated := 2; missing := 0; percentage := 100 |});
       (PStr "de", {| total := 2; translated := 1; missing := 1; percentage := 50 |});
       (PStr "", {| total := 2; translated := 0; missing := 2; percentage := 0 |})].
Proof. reflexivity. Qed.

(** Merging the key ["C"]: English gets the key as its value, the others the
    empty string, and the keys come out sorted. *)
Example merge_sample :
  merge_new_keys true {["C"]} false sample_dir =
    (Returns {| keys_added := 3;
                files_modified := 3;
                keys_per_file := [("en.yml", 1); ("de.yml", 1); ("fr.yml", 1)] |},
     {| files :=
          [("en", Parsed (TMap
              {| doc_locale := Some (PStr "en");
                 doc_translations :=
                   Some (Some [("A", PStr "A"); ("B", PStr "B"); ("C", PStr "C")]);
                 doc_others := [] |}));
           ("de", Parsed (TMap
              {| doc_locale := Some (PStr "de");
                 doc_translations :=
                   Some (Some [("A", PStr "A-de"); ("B", PStr ""); ("C", PStr "")]);
                 doc_others := [] |}));
           ("fr", Parsed (TMap
              {| doc_locale := Some (PStr "");
                 doc_translations := Some (Some [("C", PStr "")]);
                 doc_others := [] |}))];
        written := ["en"; "de"; "fr"] |}).
Proof. reflexivity. Qed.

(** A dry run reports the same and writes nothing. *)
Example merge_sample_dry_run :
  merge_new_keys true {["C"]} true sample_dir =
    (Returns {| keys_added := 3;
                files_modified := 3;
                keys_per_file := [("en.yml", 1); ("de.yml", 1); ("fr.yml", 1)] |},
     sample_dir).
Proof. reflexivity. Qed.

(** Marking the stale key: the English value gets the marker, the German one
    has it already. *)
Example mark_sample :
  mark_obsolete_keys true {["Stale"]} false stale_dir =
    (Returns 1,
     {| files :=
          [("en", Parsed (TMap
              {| doc_locale := Some (PStr "en");
                 doc_translations :=
                   Some (Some [("Used", PStr "Used");
                               ("Stale", PStr "[DEPRECATED] Old value")]);
                 doc_others := [] |}));
           ("de", Parsed (TMap
              {| doc_locale := Some (PStr "de");
                 doc_translations :=
                   Some (Some [("Stale", PStr "[DEPRECATED] Alt");
                               ("Used", PStr "Benutzt")]);
                 doc_others := [] |}))];
        written := ["en"] |}).
Proof. reflexivity. Qed.

(** Deleting the stale key from every catalog. *)
Example delete_sample :
  delete_obsolete_keys true {["Stale"]} false stale_dir =
    (Returns 2,
     {| files :=
          [("en", Parsed (TMap
              {| doc_locale := Some (PStr "en");
                 doc_translations := Some (Some [("Used", PStr "Used")]);
                 doc_others := [] |}));
           ("de", Parsed (TMap
              {| doc_locale := Some (PStr "de");
                 doc_translations := Some (Some [("Used", PStr "Benutzt")]);
                 doc_others := [] |}))];
        written := ["en"; "de"] |}).
Proof. reflexivity. Qed.

(** The stale key is the one the markup does not use. *)
Example find_obsolete_sample :
  find_obsolete_keys (gset string) unit id (fun _ => ∅) {["Used"]} "en" None stale_dir =
    (Returns {["Stale"]}, stale_dir).
Proof. by vm_compute. Qed.

(** * Further properties *)

(** ** Runs, whatever their outcome *)

Section RunOutcome.
Context {S : Type}.
Variable RUAMEL_AVAILABLE : bool.
Variable account : string → document → S → S.

(** The outcome of a run does not depend on what its turns save: a file is
  read before it is written, and read once. *)
Lemma run_files_outcome (effect1 effect2 : string → document → option document)
  entries s :
(run_files RUAMEL_AVAILABLE effect1 account entries s).1.1 =
(run_files RUAMEL_AVAILABLE effect2 account entries s).1.1.
Proof.
revert s. induction entries as [|[p c] rest IH]; intros s; simpl; [done|].
destruct (load_content c) as [d|e]; [|done].
specialize (IH (account p d s)).
destruct (run_files _ effect1 _ _ _) as [[o1 es1] ws1].
destruct (run_files _ effect2 _ _ _) as [[o2 es2] ws2].
simpl in IH. subst. by destruct (effect1 p d), (effect2 p d).
Qed.

(** A run whose turns save nothing leaves the entries as they are, also when
  it raises. *)
Lemma run_files_untouched (effect : string → document → option document) entries s :
(∀ p d, effect p d = None) →
(run_files RUAMEL_AVAILABLE effect account entries s).1.2 = entries ∧
(run_files RUAMEL_AVAILABLE effect account entries s).2 = [].
Proof.
intros Hnone. revert s. induction entries as [|[p c] rest IH]; intros s; simpl; [done|].
destruct (load_content c) as [d|e]; [|done].
destruct (IH (account p d s)) as [IH1 IH2].
destruct (run_files _ effect _ _ _) as [[o1 es1] ws1]. rewrite Hnone.
simpl in *. by subst.
Qed.
End RunOutcome.

Section RunAfter.
Context {S : Type}.
Variable RUAMEL_AVAILABLE : bool.
Variable effect : string → document → option document.
Variable account : string → document → S → S.
Hypothesis effect_reloads : ∀ p d d',
effect p d = Some d' →
load_content (Parsed (TMap (dumped RUAMEL_AVAILABLE d'))) =
  Returns (dumped RUAMEL_AVAILABLE d').
Hypothesis effect_ok : ∀ p d d', doc_ok d → effect p d = Some d' → doc_ok d'.

End RunAfter.

(** ** merge_new_keys: dry runs and the result record *)

Section MergeMore.
Implicit Types (t : dict string value) (k key : string) (l : list string) (n : Z).
Implicit Types (d : document) (keys : gset string).
Local Arguments merge_key : simpl never.

Lemma merge_effect_dry keys p d : merge_effect keys true p d = None.
Proof. unfold merge_effect. by rewrite andb_false_r. Qed.


(** The loop counts the keys of the set that the dictionary lacks. *)
Lemma merge_fold_missing locale l t n :
NoDup l →
(fold_left (merge_key locale) l (t, n)).2 =
  n + Z.of_nat (length (filter (fun k => dict_get k t = None) l)).
Proof.
intros Hnd. revert t n. induction Hnd as [|key l Hkey Hnd IH]; intros t n.
- simpl. lia.
- cbn [fold_left]. rewrite filter_cons. unfold merge_key at 2.
  destruct (dict_contains key t) eqn:Hc; simpl negb; cbv iota.
  + rewrite IH. apply dict_contains_true, dict_get_is_Some in Hc as [v Hv].
    rewrite decide_False by (by rewrite Hv). done.
  + rewrite IH. apply dict_contains_false in Hc.
    rewrite (decide_True (P := dict_get key t = None)) by done.
    rewrite (filter_ext_elem_of _ (fun k => dict_get k t = None)).
    * simpl length. lia.
    * intros k Hk. rewrite dict_get_set_ne; [done|]. by intros ->.
Qed.

Lemma merge_count_missing keys p d : merge_count keys p d = missing_count keys d.
Proof.
unfold merge_count, merge_translations, missing_count.
rewrite merge_fold_missing by apply NoDup_elements. lia.
Qed.
End MergeMore.

(** X1. A dry run of [merge_new_keys] has the outcome of the run proper, the
    same result record or the same exception, and leaves the directory and
    the log of written files as they are. *)
Theorem merge_new_keys_dry_run ruamel (new_keys : gset string) fs :
  dir_ok fs →
  merge_new_keys ruamel new_keys true fs =
    ((merge_new_keys ruamel new_keys false fs).1, fs).
Proof.
  intros [Hnames _]. rewrite !merge_new_keys_run by done.
  pose proof (run_files_outcome ruamel (merge_account new_keys)
                (merge_effect new_keys true) (merge_effect new_keys false)
                (files fs) MergeResult_default) as Hout.
  destruct (run_files_untouched ruamel (merge_account new_keys)
              (merge_effect new_keys true) (files fs) MergeResult_default
              (merge_effect_dry new_keys)) as [Hes Hws].
  destruct (run_files ruamel (merge_effect new_keys true) _ _ _) as [[o1 es1] ws1].
  destruct (run_files ruamel (merge_effect new_keys false) _ _ _) as [[o2 es2] ws2].
  simpl in *. subst. rewrite app_nil_r. by destruct fs.
Qed.

Lemma merge_new_keys_dry_run_witness :
  dir_ok broken_dir ∧
  merge_new_keys true {["C"]} true broken_dir = (Raises YAMLError, broken_dir) ∧
  (merge_new_keys true {["C"]} false broken_dir).1 = Raises YAMLError.
Proof.
  assert (dir_ok broken_dir) as Hok by compute_done.
  split; [exact Hok|]. split; [|reflexivity].
  exact (merge_new_keys_dry_run true {["C"]} broken_dir Hok).
Defined.

(** *** The result record *)

Section StringAppend.
Lemma list_ascii_of_string_app (a b : string) :
list_ascii_of_string (a +:+ b) = list_ascii_of_string a ++ list_ascii_of_string b.
Proof. induction a as [|c a IH]; simpl; [done|]. by rewrite IH. Qed.

(** A suffix cancels. *)
Lemma string_app_inj_r (a b s : string) : a +:+ s = b +:+ s → a = b.
Proof.
intros H. apply (f_equal list_ascii_of_string) in H.
rewrite !list_ascii_of_string_app in H. apply app_inv_tail in H.
apply (f_equal string_of_list_ascii) in H.
by rewrite !string_of_list_ascii_of_string in H.
Qed.
End StringAppend.


Section MergeRecord.
Implicit Types (d : document) (keys : gset string).
Implicit Types (entries : list (string * file_content)) (r : MergeResult).

(** The path of a file and the number of keys it was given. *)
Local Abbreviation kpf_item keys :=
(fun e : string * file_content =>
   (e.1 +:+ ".yml", entry_count (missing_count keys) e)).

Lemma merge_account_unfold keys p d r :
merge_account keys p d r =
  if 0 <? missing_count keys d then
    {| keys_added := keys_added r + missing_count keys d;
       files_modified := files_modified r + 1;
       keys_per_file := dict_set (p +:+ ".yml") (missing_count keys d)
                                 (keys_per_file r) |}
  else r.
Proof. unfold merge_account. cbv zeta. by rewrite merge_count_missing. Qed.

Lemma merge_account_fold keys entries r :
NoDup entries.*1 →
(∀ p, p ∈ entries.*1 → p +:+ ".yml" ∉ dict_keys (keys_per_file r)) →
let r' := fold_left (account_entry (merge_account keys)) entries r in
keys_added r' =
  keys_added r + foldr (fun e n => entry_count (missing_count keys) e + n) 0 entries ∧
files_modified r' =
  files_modified r +
  Z.of_nat (length (filter (fun e => 0 < entry_count (missing_count keys) e) entries)) ∧
keys_per_file r' =
  keys_per_file r ++
  (kpf_item keys <$> filter (fun e => 0 < entry_count (missing_count keys) e) entries).
Proof.
revert r. induction entries as [|[p c] rest IH]; intros r Hnd Hfresh.
- simpl. rewrite app_nil_r. split_and!; [lia|lia|done].
- apply NoDup_cons in Hnd as [Hp Hnd]. cbn [fold_left foldr]. rewrite filter_cons.
  assert (∀ q, q ∈ rest.*1 → q +:+ ".yml" ∉ dict_keys (keys_per_file r)) as Hrest.
  { intros q Hq. apply Hfresh. simpl. set_solver. }
  assert (p +:+ ".yml" ∉ dict_keys (keys_per_file r)) as Hnew.
  { apply Hfresh. simpl. set_solver. }
  destruct (load_content c) as [d|e] eqn:Hload.
  + assert (entry_count (missing_count keys) (p, c) = missing_count keys d) as Hec.
    { unfold entry_count. simpl. by rewrite Hload. }
    assert (account_entry (merge_account keys) r (p, c) = merge_account keys p d r) as ->.
    { unfold account_entry. simpl. by rewrite Hload. }
    rewrite merge_account_unfold, !Hec.
    destruct (Z.ltb_spec 0 (missing_count keys d)) as [Hpos|Hzero].
    * rewrite decide_True by done.
      destruct (IH {| keys_added := keys_added r + missing_count keys d;
                      files_modified := files_modified r + 1;
                      keys_per_file := dict_set (p +:+ ".yml") (missing_count keys d)
                                                (keys_per_file r) |}) as (H1 & H2 & H3);
        [done| |].
      { intros q Hq. simpl. rewrite dict_set_fresh by done.
        unfold dict_keys. rewrite fmap_app. simpl. rewrite not_elem_of_app. split.
        - by apply Hrest.
        - rewrite list_elem_of_singleton. intros Heq%string_app_inj_r. by subst. }
      simpl in H1, H2, H3. rewrite H1, H2, H3.
      rewrite dict_set_fresh by done.
      split_and!.
      -- lia.
      -- simpl length. lia.
      -- rewrite <- app_assoc. simpl. by rewrite Hec.
    * rewrite decide_False by lia.
      destruct (IH r) as (H1 & H2 & H3); [done|done|].
      simpl in H1, H2, H3. rewrite H1, H2, H3.
      assert (missing_count keys d = 0) as ->.
      { unfold missing_count in *. lia. }
      split_and!; [lia|lia|done].
  + assert (entry_count (missing_count keys) (p, c) = 0) as Hec.
    { unfold entry_count. simpl. by rewrite Hload. }
    assert (account_entry (merge_account keys) r (p, c) = r) as ->.
    { unfold account_entry. simpl. by rewrite Hload. }
    rewrite !Hec. rewrite decide_False by lia.
    destruct (IH r) as (H1 & H2 & H3); [done|done|].
    simpl in H1, H2, H3. rewrite H1, H2, H3.
    split_and!; [lia|lia|done].
Qed.

End MergeRecord.

(** X2. The record [merge_new_keys] returns, in a dry run as in a run proper:
    [keys_added] is the number of new keys the catalogs lack, summed over the
    files, [files_modified] the number of files whose catalog lacks one, and
    [keys_per_file] lists exactly those files, in the order of the directory,
    each with the number of keys its catalog lacks. *)
Theorem merge_new_keys_record ruamel (new_keys : gset string) dry_run fs :
  dir_ok fs → all_load fs →
  ∃ result fs1,
    merge_new_keys ruamel new_keys dry_run fs = (Returns result, fs1) ∧
    keys_added result = sum_over (missing_count new_keys) fs ∧
    files_modified result =
      Z.of_nat (length (counted_paths (missing_count new_keys) fs)) ∧
    keys_per_file result =
      (fun e => (e.1 +:+ ".yml", entry_count (missing_count new_keys) e)) <$>
      filter (fun e => 0 < entry_count (missing_count new_keys) e) (files fs).
Proof.
  intros Hok Hload.
  destruct (merge_new_keys_returns ruamel new_keys dry_run fs Hok Hload)
    as (result & es & ws & Hrun & Hcall).
  exists result, {| files := es; written := written fs ++ ws |}.
  split; [exact Hcall|].
  destruct (run_files_Returns _ _ _ _ _ _ _ _ Hrun) as (_ & _ & -> & _).
  destruct Hok as [Hnames _].
  destruct (merge_account_fold new_keys (files fs) MergeResult_default Hnames)
    as (H1 & H2 & H3).
  { intros p _. simpl. apply not_elem_of_nil. }
  simpl in H1, H2, H3. rewrite H1, H2, H3. unfold sum_over, counted_paths.
  rewrite length_fmap. split_and!; [lia|lia|done].
Qed.

Lemma merge_new_keys_record_witness :
  ∃ result fs1,
    merge_new_keys true {["A"; "C"]} false sample_dir = (Returns result, fs1) ∧
    keys_added result = sum_over (missing_count {["A"; "C"]}) sample_dir ∧
    files_modified result =
      Z.of_nat (length (counted_paths (missing_count {["A"; "C"]}) sample_dir)) ∧
    keys_per_file result =
      (fun e => (e.1 +:+ ".yml", entry_count (missing_count {["A"; "C"]}) e)) <$>
      filter (fun e => 0 < entry_count (missing_count {["A"; "C"]}) e) (files sample_dir).
Proof.
  apply (merge_new_keys_record true {["A"; "C"]} false sample_dir); compute_done.
Defined.

(** ** mark_obsolete_keys and delete_obsolete_keys: what a run leaves *)

Section CountedAfter.
Variable RUAMEL_AVAILABLE : bool.
Variable count : document → Z.
Variable change : document → document.
Hypothesis count_nonneg : ∀ d, 0 ≤ count d.
Hypothesis change_reloads : ∀ d,
load_content (Parsed (TMap (dumped RUAMEL_AVAILABLE (change d)))) =
  Returns (dumped RUAMEL_AVAILABLE (change d)).
Hypothesis change_ok : ∀ d, doc_ok d → doc_ok (change d).



End CountedAfter.










Section ObsoleteCycle.
Context {xml_tree cpp_tree : Type}.
Variable extract_xml : xml_tree → gset string.
Variable extract_cpp : cpp_tree → gset string.

Local Abbreviation find := (find_obsolete_keys xml_tree cpp_tree extract_xml extract_cpp).
Local Abbreviation used := (used_strings extract_xml extract_cpp).



End ObsoleteCycle.







(** ** Functions that only read *)

Section Readonly.
Context {A B : Type}.

Lemma readonly_ret (a : A) : readonly (mret a).
Proof. done. Qed.

Lemma readonly_raise e : readonly (raise e : M A).
Proof. done. Qed.

Lemma readonly_bind (m : M A) (k : A → M B) :
readonly m → (∀ a, readonly (k a)) → readonly (m ≫= k).
Proof.
intros Hm Hk fs. unfold mbind, M_bind. specialize (Hm fs).
destruct (m fs) as [[a|e] fs']; simpl in *; subst; [apply (Hk a) | done].
Qed.

End Readonly.

Lemma readonly_for_each {A S : Type} (l : list A) (body : A → S → M S) s :
  (∀ x s, readonly (body x s)) → readonly (for_each l body s).
Proof.
  intros Hbody. revert s. induction l as [|x l IH]; intros s; simpl.
  - apply readonly_ret.
  - apply readonly_bind; [apply Hbody | apply IH].
Qed.

Lemma readonly_glob_yml : readonly glob_yml.
Proof. done. Qed.

Lemma readonly_path_exists stem : readonly (path_exists stem).
Proof. done. Qed.

Lemma readonly_load_yaml_file p : readonly (load_yaml_file p).
Proof. intros fs. by rewrite load_yaml_file_run. Qed.

Lemma readonly_as_mapping t : readonly (as_mapping t).
Proof. destruct t; done. Qed.

Create HintDb readonly.
#[local] Hint Resolve readonly_ret readonly_raise readonly_glob_yml
  readonly_path_exists readonly_load_yaml_file readonly_as_mapping : readonly.

Ltac readonly_step :=
  first [ solve [auto with readonly]
        | apply readonly_bind; [|intros ?]
        | apply readonly_for_each; intros ? ?
        | match goal with
          | |- readonly (if _ && false then _ else _) => rewrite andb_false_r
          | |- readonly (if ?b then _ else _) => destruct b
          | |- readonly (match ?x with _ => _ end) => destruct x
          end ].

(** X8. The functions that report never touch the files: whatever the
    directory holds, and whether they return or raise, [load_yaml_file],
    [calculate_coverage], [get_missing_translations] and [find_obsolete_keys]
    leave every file and the log of written files as they are. *)
Theorem reports_are_readonly {xml_tree cpp_tree : Type}
    (extract_xml : xml_tree → gset string) (extract_cpp : cpp_tree → gset string)
    p base_locale xml_dir cpp_dir :
  readonly (load_yaml_file p) ∧
  readonly (calculate_coverage base_locale) ∧
  readonly (get_missing_translations base_locale) ∧
  readonly (find_obsolete_keys xml_tree cpp_tree extract_xml extract_cpp
              xml_dir base_locale cpp_dir).
Proof.
  split_and!.
  - apply readonly_load_yaml_file.
  - unfold calculate_coverage. repeat readonly_step.
  - unfold get_missing_translations. repeat readonly_step.
  - unfold find_obsolete_keys. repeat readonly_step.
Qed.

(** X9. A dry run never writes: whatever the directory holds, and whether
    they return or raise, [merge_new_keys], [merge_new_keys_with_sources],
    [mark_obsolete_keys] and [delete_obsolete_keys] called with [dry_run]
    leave every file and the log of written files as they are. *)
Theorem dry_runs_are_readonly ruamel is_CommentedMap (keys : gset string)
    (new_keys_with_sources : dict string (list (string * Z))) :
  readonly (merge_new_keys ruamel keys true) ∧
  readonly (merge_new_keys_with_sources ruamel is_CommentedMap
              new_keys_with_sources true) ∧
  readonly (mark_obsolete_keys ruamel keys true) ∧
  readonly (delete_obsolete_keys ruamel keys true).
Proof.
  split_and!.
  - unfold merge_new_keys. simpl negb. repeat readonly_step.
  - unfold merge_new_keys_with_sources. simpl negb. repeat readonly_step.
  - unfold mark_obsolete_keys. simpl negb. repeat readonly_step.
  - unfold delete_obsolete_keys. simpl negb. repeat readonly_step.
Qed.

(** ** get_missing_translations *)

Section MissingFacts.
Implicit Types (t base : dict string value) (k key : string) (l : list string).
Implicit Types (d : document) (s : string).

(** The test of [missing_key] is the negation of the test of
  [calculate_coverage]. *)
Lemma missing_key_unfold (tr : option (dict string value)) l key :
missing_key tr l key = if is_translated (or_empty tr) key then l else l ++ [key].
Proof.
unfold missing_key, is_translated.
destruct tr as [[|kv t]|]; [done| |done].
change (dict_bool (Some (kv :: t))) with true. cbv iota.
change (or_empty (Some (kv :: t))) with (kv :: t).
destruct (dict_get key (kv :: t)) as [[|s]|]; simpl; try done.
rewrite <- negb_andb, strip_empty_bool. by destruct (str_bool (strip s)).
Qed.

Lemma missing_fold (tr : option (dict string value)) l acc :
fold_left (missing_key tr) l acc = acc ++ untranslated l (or_empty tr).
Proof.
unfold untranslated. revert acc. induction l as [|k l IH]; intros acc.
- simpl. by rewrite app_nil_r.
- cbn [fold_left]. rewrite IH, missing_key_unfold, filter_cons.
  destruct (is_translated (or_empty tr) k) eqn:Hk.
  + by rewrite decide_False.
  + rewrite decide_True by done. by rewrite <- app_assoc.
Qed.

(** Translated and untranslated keys make up the keys of the base
  catalog. *)
Lemma translated_untranslated l t :
translated_count l t + Z.of_nat (length (untranslated l t)) = Z.of_nat (length l).
Proof.
unfold translated_count, untranslated. induction l as [|k l IH]; [done|].
rewrite !filter_cons. destruct (is_translated t k).
- rewrite decide_True, decide_False by done. simpl length. lia.
- rewrite decide_False, decide_True by done. simpl length. lia.
Qed.

Lemma translated_count_bounds l t : 0 ≤ translated_count l t ≤ Z.of_nat (length l).
Proof. pose proof (translated_untranslated l t). unfold translated_count in *. lia. Qed.

Lemma sorted_strings_perm l : sorted_strings l ≡ₚ l.
Proof. apply merge_sort_Permutation. Qed.

Lemma sorted_strings_sorted l : StronglySorted String.le (sorted_strings l).
Proof. apply StronglySorted_merge_sort; apply _. Qed.

Lemma sorted_strings_length l : length (sorted_strings l) = length l.
Proof. by rewrite sorted_strings_perm. Qed.

Lemma missing_account_nil base_locale p d r : missing_account base_locale [] p d r = r.
Proof. unfold missing_account. by case_decide. Qed.

Lemma missing_fold_nil base_locale es (r : dict value (list string)) :
fold_left (account_entry (missing_account base_locale [])) es r = r.
Proof.
revert r. induction es as [|e es IH]; intros r; [done|].
cbn [fold_left]. rewrite IH. unfold account_entry.
destruct (load_content e.2); [apply missing_account_nil | done].
Qed.

Lemma missing_account_entry base_locale base e (r : dict value (list string)) :
account_entry (missing_account base_locale base) r e =
  match entry_missing base_locale base e with
  | Some (l, keys) => dict_set l keys r
  | None => r
  end.
Proof.
unfold account_entry, entry_missing, missing_account.
destruct (load_content e.2) as [d|]; [|done]. case_decide; [done|].
by destruct (untranslated _ _).
Qed.

(** The result maps a locale to the keys reported for the last catalog with
  that locale for which any are reported. *)
Lemma missing_fold_get base_locale base es (r0 : dict value (list string)) (l : value) :
dict_get l (fold_left (account_entry (missing_account base_locale base)) es r0) =
  match last (filter (fun e => fst <$> entry_missing base_locale base e = Some l) es) with
  | Some e => snd <$> entry_missing base_locale base e
  | None => dict_get l r0
  end.
Proof.
induction es as [|e es IH] using rev_ind; [done|].
rewrite fold_left_app, filter_app. simpl. rewrite missing_account_entry.
rewrite filter_cons, filter_nil.
destruct (entry_missing base_locale base e) as [[l' keys]|] eqn:He.
- destruct (decide (l' = l)) as [->|Hne].
  + rewrite decide_True by done. rewrite last_snoc, He. simpl.
    by rewrite dict_get_set_eq.
  + rewrite decide_False by (simpl; congruence).
    rewrite app_nil_r, dict_get_set_ne by done. apply IH.
- rewrite decide_False by (simpl; congruence). rewrite app_nil_r. apply IH.
Qed.

(** [get_missing_translations] on a directory in which every file loads. *)
Lemma get_missing_translations_run base_locale fs :
dir_ok fs → all_load fs →
get_missing_translations base_locale fs =
  (Returns (match catalog fs base_locale with
            | Some bd =>
                fold_left (account_entry
                             (missing_account base_locale (translations_of bd)))
                          (files fs) []
            | None => []
            end), fs).
Proof.
intros Hok Hall. unfold get_missing_translations.
unfold mbind at 1, M_bind at 1, path_exists, dict_contains.
destruct (dict_get base_locale (files fs)) as [c|] eqn:Hc; simpl.
- destruct (all_load_get _ _ _ Hall Hc) as [bd Hbd].
  assert (catalog fs base_locale = Some bd) as -> by (apply catalog_Some; eauto).
  unfold mbind at 1, M_bind at 1. rewrite load_yaml_file_run, Hc.
  assert (∃ data, c = Parsed data ∧
                  (if top_bool data then data else TMap empty_catalog) = TMap bd)
    as (data & -> & Hdata).
  { destruct c as [|data]; [done|]. exists data. split; [done|]. simpl in Hbd.
    by destruct (if top_bool data then data else TMap empty_catalog); simplify_eq. }
  rewrite Hdata. unfold mbind at 1, M_bind at 1. simpl.
  destruct (dict_bool (get_translations bd)) eqn:Hb; simpl.
  + unfold mbind at 1, M_bind at 1, glob_yml.
    rewrite (for_each_ext _ _
               (file_body true (fun _ _ => None)
                  (missing_account base_locale (translations_of bd)))).
    * destruct fs as [entries w]. simpl in *.
      rewrite (for_each_run_files true _ _ [] entries) by apply Hok.
      rewrite run_files_readonly by (by apply all_load_Returns in Hall).
      by rewrite app_nil_r.
    * intros p result fs'. unfold file_body, mbind, M_bind.
      destruct (load_yaml_file p fs') as [[[|d|s]|e] fs1]; simpl; try done.
      unfold mret, M_ret, missing_account. do 2 f_equal.
      case_decide; [done|]. rewrite missing_fold. simpl.
      unfold translations_of. by destruct (untranslated _ _).
  + apply translations_of_falsy in Hb. rewrite Hb. by rewrite missing_fold_nil.
- unfold catalog. by rewrite Hc.
Qed.
End MissingFacts.

Section CoverageMore.
Implicit Types (base : dict string value) (d : document) (l : value).

(** An entry of the result of [calculate_coverage] holds the statistics of a
  catalog of the directory with that locale. *)
Lemma coverage_result_entry base_locale base fs l st :
dir_ok fs →
dict_get l (fold_left (account_entry (coverage_account base_locale base))
                      (files fs) []) = Some st →
∃ e d, e ∈ files fs ∧ load_content e.2 = Returns d ∧ catalog fs e.1 = Some d ∧
       get_locale e.1 d = l ∧ st = coverage_of base_locale base e.1 d.
Proof.
intros Hok. rewrite coverage_fold_get.
destruct (last (filter _ (files fs))) as [[p c]|] eqn:Hlast; [|done].
apply last_Some_elem_of, list_elem_of_filter in Hlast as [Hloc Hin].
unfold entry_coverage, entry_locale in *. simpl in *.
destruct (load_content c) as [d|] eqn:Hd; [|done].
intros [= <-]. exists (p, c), d. simpl. split_and!; [done|done| |congruence|done].
apply catalog_Some. exists c. split; [|done]. apply dict_get_elem_of; [apply Hok | done].
Qed.

Lemma entry_missing_Some base_locale base e l keys :
entry_missing base_locale base e = Some (l, keys) ↔
∃ d, load_content e.2 = Returns d ∧ get_locale e.1 d = l ∧ l ≠ PStr base_locale ∧
     untranslated (dict_keys base) (translations_of d) ≠ [] ∧
     keys = sorted_strings (untranslated (dict_keys base) (translations_of d)).
Proof.
unfold entry_missing. destruct (load_content e.2) as [d|]; [|by split; [|intros (? & ? & _)]].
split.
- case_decide as Hl; [done|].
  destruct (untranslated _ _) as [|k m] eqn:Hm; [done|]. intros [= <- <-].
  exists d. by rewrite Hm.
- intros (d' & [= <-] & <- & Hl & Hm & ->). rewrite decide_False by done.
  by destruct (untranslated _ _).
Qed.

Lemma NoDup_fmap_eq {A B : Type} (f : A → B) (l : list A) x y :
NoDup (f <$> l) → x ∈ l → y ∈ l → f x = f y → x = y.
Proof.
induction l as [|a l IH]; simpl; [by intros _ ?%elem_of_nil|].
rewrite NoDup_cons. intros [Ha Hnd] [->|Hx]%elem_of_cons [->|Hy]%elem_of_cons Heq; auto.
- destruct Ha. rewrite Heq. by apply list_elem_of_fmap_2.
- destruct Ha. rewrite <- Heq. by apply list_elem_of_fmap_2.
Qed.
End CoverageMore.

(** X10. The counts of [calculate_coverage] add up: when every file of the
    directory loads, every entry of the result has for [total] the number of
    keys of the base catalog, the same for every locale, [translated] and
    [missing] between 0 and [total], and [translated + missing = total]. *)
Theorem calculate_coverage_bounds base_locale fs :
  dir_ok fs → all_load fs →
  ∃ result,
    calculate_coverage base_locale fs = (Returns result, fs) ∧
    ∀ l st, dict_get l result = Some st →
      total st = len (base_translations base_locale fs) ∧
      0 ≤ translated st ≤ total st ∧
      0 ≤ missing st ≤ total st ∧
      translated st + missing st = total st.
Proof.
  intros Hok Hall. eexists. split; [by apply calculate_coverage_run|].
  intros l st Hst.
  destruct (coverage_result_entry _ _ _ _ _ Hok Hst) as (e & d & _ & _ & _ & _ & ->).
  unfold coverage_of. case_decide; simpl.
  - unfold len. lia.
  - pose proof (translated_count_bounds (dict_keys (base_translations base_locale fs))
                  (translations_of d)) as Hb.
    unfold dict_keys in Hb. rewrite length_fmap in Hb. unfold len, dict_keys. lia.
Qed.

Lemma calculate_coverage_bounds_witness :
  ∃ result,
    calculate_coverage "en" sample_dir = (Returns result, sample_dir) ∧
    ∀ l st, dict_get l result = Some st →
      total st = len (base_translations "en" sample_dir) ∧
      0 ≤ translated st ≤ total st ∧
      0 ≤ missing st ≤ total st ∧
      translated st + missing st = total st.
Proof.
  apply (calculate_coverage_bounds "en" sample_dir); compute_done.
Defined.

(** X11. What [get_missing_translations] reports: when every file of the
    directory loads, it returns and leaves the directory as it is. A locale
    in the result is never the base locale, and its list is never empty: it
    is, sorted, the keys of the base catalog [<base_locale>.yml] for which a
    catalog with that locale has no value that is a string and not blank.
    And every catalog with another locale than the base locale that leaves
    such a key has its locale in the result. *)
Theorem get_missing_translations_spec base_locale fs :
  dir_ok fs → all_load fs →
  ∃ result,
    get_missing_translations base_locale fs = (Returns result, fs) ∧
    (∀ l keys, dict_get l result = Some keys →
       l ≠ PStr base_locale ∧ keys ≠ [] ∧ StronglySorted String.le keys ∧
       ∃ bd p d, catalog fs base_locale = Some bd ∧ catalog fs p = Some d ∧
         get_locale p d = l ∧
         keys = sorted_strings (untranslated (dict_keys (translations_of bd))
                                             (translations_of d)) ∧
         ∀ k, k ∈ keys ↔ k ∈ dict_keys (translations_of bd) ∧
                          is_translated (translations_of d) k = false) ∧
    (∀ bd p d, catalog fs base_locale = Some bd → catalog fs p = Some d →
       get_locale p d ≠ PStr base_locale →
       untranslated (dict_keys (translations_of bd)) (translations_of d) ≠ [] →
       is_Some (dict_get (get_locale p d) result)).
Proof.
  intros Hok Hall. eexists. split; [by apply get_missing_translations_run|].
  destruct (catalog fs base_locale) as [bd|] eqn:Hbd; [|done].
  split.
  - intros l keys. rewrite missing_fold_get.
    destruct (last (filter _ (files fs))) as [[p c]|] eqn:Hlast; [|done].
    apply last_Some_elem_of, list_elem_of_filter in Hlast as [Hp Hin].
    destruct (entry_missing base_locale (translations_of bd) (p, c)) as [[l' keys']|] eqn:He;
      [|done].
    simpl in Hp. injection Hp as ->. simpl. intros [= ->].
    apply entry_missing_Some in He as (d & Hd & Hl & Hne & Hm & ->). simpl in *.
    split; [done|]. split.
    { intros Hnil. apply Hm. apply Permutation_nil_r. rewrite <- Hnil.
      symmetry. apply sorted_strings_perm. }
    split; [apply sorted_strings_sorted|].
    exists bd, p, d. split; [done|]. split.
    { apply catalog_Some. exists c. split; [|done].
      apply dict_get_elem_of; [apply Hok | done]. }
    split; [done|]. split; [done|]. intros k.
    rewrite sorted_strings_perm. unfold untranslated.
    rewrite list_elem_of_filter. tauto.
  - intros bd' p d [= <-] (c & Hc & Hd)%catalog_Some Hl Hm.
    rewrite missing_fold_get.
    assert ((p, c) ∈ filter (fun e => fst <$> entry_missing base_locale
                                         (translations_of bd) e = Some (get_locale p d))
                            (files fs)) as Hin.
    { apply list_elem_of_filter. split; [|by apply dict_get_Some_elem].
      assert (entry_missing base_locale (translations_of bd) (p, c) =
              Some (get_locale p d,
                    sorted_strings (untranslated (dict_keys (translations_of bd))
                                                 (translations_of d)))) as ->; [|done].
      apply entry_missing_Some. by exists d. }
    destruct (last (filter _ (files fs))) as [e|] eqn:Hlast.
    + apply last_Some_elem_of, list_elem_of_filter in Hlast as [He _].
      destruct (entry_missing _ _ e) as [[l' keys']|]; [by eexists | done].
    + apply last_None in Hlast. rewrite Hlast in Hin. by apply elem_of_nil in Hin.
Qed.

Lemma get_missing_translations_spec_witness :
  ∃ result,
    get_missing_translations "en" sample_dir = (Returns result, sample_dir) ∧
    dict_get (PStr "de") result = Some ["B"] ∧
    dict_get (PStr "") result = Some ["A"; "B"] ∧
    dict_get (PStr "en") result = None.
Proof.
  assert (dir_ok sample_dir) as Hok by compute_done.
  assert (all_load sample_dir) as Hall by compute_done.
  destruct (get_missing_translations_spec "en" sample_dir Hok Hall) as (result & Hrun & _).
  exists result. split; [exact Hrun|].
  vm_compute in Hrun. injection Hrun as <-. by vm_compute.
Defined.

(** X12. Without keys of the base locale nothing is reported: when the file
    [<base_locale>.yml] is missing, or loads as a catalog whose translations
    are missing, [None] or empty, [get_missing_translations] returns the
    empty dictionary without reading another file, whatever the other files
    hold; it does not fall back on the first file of the directory as
    [calculate_coverage] does. *)
Theorem get_missing_translations_no_base base_locale fs :
  (dict_get base_locale (files fs) = None ∨
   ∃ d, catalog fs base_locale = Some d ∧ no_translations d) →
  get_missing_translations base_locale fs = (Returns [], fs).
Proof.
  intros Hbase. unfold get_missing_translations.
  unfold mbind at 1, M_bind at 1, path_exists, dict_contains.
  destruct Hbase as [->|(d & (c & Hc & Hd)%catalog_Some & Hnone%translations_of_nil_iff)];
    [done|].
  rewrite Hc. simpl. unfold mbind at 1, M_bind at 1. rewrite load_yaml_file_run, Hc.
  destruct c as [|data]; [done|]. simpl in Hd.
  destruct (if top_bool data then data else TMap empty_catalog) as [|d'|s]; try done.
  injection Hd as ->. unfold mbind at 1, M_bind at 1. simpl.
  apply dict_bool_translations in Hnone. by rewrite Hnone.
Qed.

Lemma get_missing_translations_no_base_witness :
  get_missing_translations "en" text_dir = (Returns [], text_dir) ∧
  get_missing_translations "it" text_dir = (Returns [], text_dir) ∧
  get_missing_translations "de" text_dir = (Raises AttributeError, text_dir).
Proof.
  split; [|split; [|reflexivity]].
  - apply (get_missing_translations_no_base "en" text_dir). by left.
  - apply (get_missing_translations_no_base "it" text_dir). right.
    exists notes. split; [reflexivity | by left].
Defined.

(** X13. The two reports agree: when every file of the directory loads, the
    file [<base_locale>.yml] exists and no two catalogs have the same locale,
    the [missing] count that [calculate_coverage] gives a locale other than
    the base locale is the length of the list that
    [get_missing_translations] gives it, 0 when it gives none; and every
    locale of the second report is in the first. *)
Theorem coverage_missing_agree base_locale fs :
  dir_ok fs → all_load fs →
  is_Some (dict_get base_locale (files fs)) → distinct_locales fs →
  ∃ stats lists,
    calculate_coverage base_locale fs = (Returns stats, fs) ∧
    get_missing_translations base_locale fs = (Returns lists, fs) ∧
    (∀ l st, l ≠ PStr base_locale → dict_get l stats = Some st →
       missing st = Z.of_nat (length (default [] (dict_get l lists)))) ∧
    (∀ l, is_Some (dict_get l lists) → is_Some (dict_get l stats)).
Proof.
  intros Hok Hall [bc Hbc] Hdistinct.
  destruct (all_load_get _ _ _ Hall Hbc) as [bd Hbd].
  assert (catalog fs base_locale = Some bd) as Hcat by (apply catalog_Some; eauto).
  assert (base_translations base_locale fs = translations_of bd) as Hbase.
  { unfold base_translations, base_path, dict_contains. by rewrite Hbc, Hcat. }
  eexists _, _. split; [by apply calculate_coverage_run|].
  split; [by apply get_missing_translations_run|].
  rewrite Hcat, Hbase. set (base := translations_of bd). split.
  - intros l st Hl Hst.
    destruct (coverage_result_entry _ _ _ _ _ Hok Hst) as (e & d & He & Hd & _ & Hloc & ->).
    unfold coverage_of. rewrite decide_False by congruence. simpl.
    pose proof (translated_untranslated (dict_keys base) (translations_of d)) as Hsum.
    unfold dict_keys in Hsum at 3. rewrite length_fmap in Hsum.
    rewrite missing_fold_get.
    destruct (last (filter _ (files fs))) as [e'|] eqn:Hlast.
    + apply last_Some_elem_of, list_elem_of_filter in Hlast as [Hp He'].
      destruct (entry_missing base_locale base e') as [[l' keys]|] eqn:Hm; [|done].
      simpl in Hp. injection Hp as ->.
      apply entry_missing_Some in Hm as (d' & Hd' & Hloc' & _ & _ & ->).
      assert (e' = e) as ->.
      { apply (NoDup_fmap_eq entry_locale (files fs)); [done|done|done|].
        unfold entry_locale. rewrite Hd, Hd'. congruence. }
      assert (d' = d) as -> by congruence.
      simpl. rewrite sorted_strings_length. unfold len. lia.
    + apply last_None in Hlast. simpl.
      assert (untranslated (dict_keys base) (translations_of d) = []) as Hnil.
      { destruct (untranslated (dict_keys base) (translations_of d)) as [|k m] eqn:Hm;
          [done|].
        assert (e ∈ filter (fun e => fst <$> entry_missing base_locale base e = Some l)
                           (files fs)) as Hin; [|by rewrite Hlast in Hin; apply elem_of_nil in Hin].
        apply list_elem_of_filter. split; [|done].
        assert (entry_missing base_locale base e =
                Some (l, sorted_strings (untranslated (dict_keys base) (translations_of d))))
          as ->; [|done].
        apply entry_missing_Some. exists d. rewrite Hm. by split_and!. }
      rewrite Hnil in Hsum. simpl in Hsum. unfold len. lia.
  - intros l. rewrite missing_fold_get, coverage_fold_get.
    destruct (last (filter (fun e => fst <$> entry_missing base_locale base e = Some l)
                           (files fs))) as [e'|] eqn:Hlast; [|by intros [? [=]]].
    intros _.
    apply last_Some_elem_of, list_elem_of_filter in Hlast as [Hp He'].
    destruct (entry_missing base_locale base e') as [[l' keys]|] eqn:Hm; [|done].
    simpl in Hp. injection Hp as ->.
    apply entry_missing_Some in Hm as (d' & Hd' & Hloc' & _ & _ & ->).
    assert (e' ∈ filter (fun e => entry_locale e = Some l) (files fs)) as Hin.
    { apply list_elem_of_filter. split; [|done]. unfold entry_locale. by rewrite Hd', Hloc'. }
    destruct (last (filter (fun e => entry_locale e = Some l) (files fs))) as [e|] eqn:Hl.
    + apply last_Some_elem_of, list_elem_of_filter in Hl as [Hloc _].
      unfold entry_coverage, entry_locale in *.
      destruct (load_content e.2); [by eexists | done].
    + apply last_None in Hl. rewrite Hl in Hin. by apply elem_of_nil in Hin.
Qed.

Lemma coverage_missing_agree_witness :
  ∃ stats lists,
    calculate_coverage "en" sample_dir = (Returns stats, sample_dir) ∧
    get_missing_translations "en" sample_dir = (Returns lists, sample_dir) ∧
    (∀ l st, l ≠ PStr "en" → dict_get l stats = Some st →
       missing st = Z.of_nat (length (default [] (dict_get l lists)))) ∧
    (∀ l, is_Some (dict_get l lists) → is_Some (dict_get l stats)).
Proof.
  apply (coverage_missing_agree "en" sample_dir); compute_done.
Defined.

(** ** merge_new_keys_with_sources *)

Section SortedUnique.
Context {V : Type}.
Implicit Types (t : dict string V) (k : string).

(** Two dictionaries with the same values under the same keys, both with
  their keys in strictly increasing order, are the same list. *)
Lemma sorted_by_key_unique t1 t2 :
sorted_by_key t1 → sorted_by_key t2 →
(∀ k, dict_get k t1 = dict_get k t2) → t1 = t2.
Proof.
unfold sorted_by_key, dict_keys. revert t2.
induction t1 as [|[k1 v1] r1 IH]; intros [|[k2 v2] r2] Hs1 Hs2 Hget.
- done.
- specialize (Hget k2). simpl in Hget. by rewrite decide_True in Hget.
- specialize (Hget k1). simpl in Hget. by rewrite decide_True in Hget.
- simpl in Hs1, Hs2.
  apply StronglySorted_inv in Hs1 as [Hs1 Hall1].
  apply StronglySorted_inv in Hs2 as [Hs2 Hall2].
  rewrite Forall_forall in Hall1, Hall2.
  assert (k1 ∉ r1.*1) as Hk1 by (intros Hin; by destruct (Hall1 _ Hin)).
  assert (k2 ∉ r2.*1) as Hk2 by (intros Hin; by destruct (Hall2 _ Hin)).
  assert (k1 = k2) as <-.
  { pose proof (Hget k1) as H1. pose proof (Hget k2) as H2. simpl in H1, H2.
    rewrite (decide_True (P := k1 = k1)) in H1 by done.
    rewrite (decide_True (P := k2 = k2)) in H2 by done.
    destruct (decide (k1 = k2)) as [|Hne]; [done|].
    rewrite (decide_False (P := k2 = k1)) in H2 by done.
    assert (k1 ∈ r2.*1) as Hin1 by (apply dict_get_is_Some; by rewrite <- H1).
    assert (k2 ∈ r1.*1) as Hin2 by (apply dict_get_is_Some; by rewrite H2).
    destruct (Hall1 _ Hin2) as [Hle1 _]. destruct (Hall2 _ Hin1) as [Hle2 _].
    by apply (anti_symm String.le). }
  assert (v1 = v2) as <-.
  { specialize (Hget k1). simpl in Hget. rewrite !decide_True in Hget by done.
    congruence. }
  f_equal. apply IH; [done|done|]. intros k. specialize (Hget k). simpl in Hget.
  destruct (decide (k = k1)) as [->|]; [|done].
  apply dict_get_None in Hk1, Hk2. by rewrite Hk1, Hk2.
Qed.

(** Sorting forgets the order of insertion. *)
Lemma sorted_items_unique t1 t2 :
dict_ok t1 → dict_ok t2 → (∀ k, dict_get k t1 = dict_get k t2) →
sorted_items t1 = sorted_items t2.
Proof.
intros H1 H2 Hget. apply sorted_by_key_unique.
- by apply sorted_by_key_sorted_items.
- by apply sorted_by_key_sorted_items.
- intros k. by rewrite !dict_get_sorted.
Qed.
End SortedUnique.

Section RunExt.
Context {S : Type}.
Variable RUAMEL_AVAILABLE : bool.

(** Runs whose turns agree on the catalogs of the directory are the same
  run. *)
Lemma run_files_ext (effect1 effect2 : string → document → option document)
  (account1 account2 : string → document → S → S) entries s :
Forall (fun e => content_ok e.2) entries →
(∀ p d, doc_ok d → effect1 p d = effect2 p d) →
(∀ p d s, doc_ok d → account1 p d s = account2 p d s) →
run_files RUAMEL_AVAILABLE effect1 account1 entries s =
run_files RUAMEL_AVAILABLE effect2 account2 entries s.
Proof.
intros Hok He Ha. revert s. induction Hok as [|[p c] rest Hc _ IH]; intros s; simpl; [done|].
destruct (load_content c) as [d|e] eqn:Hd; [|done].
pose proof (content_ok_load c d Hc Hd) as Hdoc.
by rewrite IH, He, Ha.
Qed.
End RunExt.

Section Sources.
Variable RUAMEL_AVAILABLE : bool.
Variable is_CommentedMap : document → bool.
Implicit Types (sources : dict string (list (string * Z))) (t : dict string value).
Implicit Types (d : document) (keys : gset string).
Local Arguments merge_key : simpl never.
Local Arguments merge_source_key : simpl never.

(** Apart from the comments, a turn of the loop over the keys and their
  sources is a turn of the loop of [merge_new_keys]. *)
Lemma merge_source_key_unfold commented locale t cm n key srcs :
∃ cm',
  merge_source_key RUAMEL_AVAILABLE commented locale (t, cm, n) (key, srcs) =
    ((merge_key locale (t, n) key).1, cm', (merge_key locale (t, n) key).2).
Proof.
unfold merge_source_key, merge_key. destruct (dict_contains key t); simpl; eauto.
Qed.

Lemma source_fold commented locale sources t cm n :
(fold_left (merge_source_key RUAMEL_AVAILABLE commented locale) sources (t, cm, n)).1.1 =
  (fold_left (merge_key locale) (dict_keys sources) (t, n)).1 ∧
(fold_left (merge_source_key RUAMEL_AVAILABLE commented locale) sources (t, cm, n)).2 =
  (fold_left (merge_key locale) (dict_keys sources) (t, n)).2.
Proof.
revert t cm n. induction sources as [|[key srcs] rest IH]; intros t cm n; [done|].
cbn [fold_left dict_keys fmap list_fmap fst].
destruct (merge_source_key_unfold commented locale t cm n key srcs) as [cm' ->].
destruct (merge_key locale (t, n) key) as [t1 n1]. apply IH.
Qed.

(** The loop of [merge_new_keys] gives the same count and, up to the order
  of insertion, the same translations for the keys in any order. *)
Lemma merge_fold_perm locale (l1 l2 : list string) t :
NoDup l1 → l1 ≡ₚ l2 → dict_ok t →
(fold_left (merge_key locale) l1 (t, 0)).2 = (fold_left (merge_key locale) l2 (t, 0)).2 ∧
sorted_items (fold_left (merge_key locale) l1 (t, 0)).1 =
  sorted_items (fold_left (merge_key locale) l2 (t, 0)).1.
Proof.
intros Hnd Hp Ht. assert (NoDup l2) as Hnd2 by (by rewrite <- Hp). split.
- rewrite !merge_fold_missing by done. by rewrite Hp.
- apply sorted_items_unique; [by apply merge_fold_ok | by apply merge_fold_ok |].
  intros k. rewrite !merge_fold_get. destruct (dict_get k t); [done|].
  destruct (decide (k ∈ l1)) as [H1|H1], (decide (k ∈ l2)) as [H2|H2]; try done.
  + destruct H2. by rewrite <- Hp.
  + destruct H1. by rewrite Hp.
Qed.

Lemma source_translations_merge sources p d :
dict_ok sources → doc_ok d →
(source_translations RUAMEL_AVAILABLE is_CommentedMap sources p d).2 =
  merge_count (list_to_set (dict_keys sources)) p d ∧
set_translations
  (Some (dict_of_items (sorted_items
     (source_translations RUAMEL_AVAILABLE is_CommentedMap sources p d).1.1))) d =
  merged_document (list_to_set (dict_keys sources)) p d.
Proof.
intros Hs [Hd _]. unfold source_translations, merge_count, merged_document,
  merge_translations.
destruct (source_fold (commented_of is_CommentedMap d) (get_locale p d) sources
            (translations_of d) [] 0) as [H1 H2].
assert (dict_keys sources ≡ₚ elements (list_to_set (C := gset string) (dict_keys sources)))
  as Hp by (symmetry; by apply elements_list_to_set).
destruct (merge_fold_perm (get_locale p d) _ _ (translations_of d) Hs Hp Hd)
  as [Hcount Hsort].
split; [etrans; [exact H2 | exact Hcount]|].
do 3 f_equal. etrans; [exact (f_equal sorted_items H1) | exact Hsort].
Qed.

Lemma source_effect_merge sources dry_run p d :
dict_ok sources → doc_ok d →
source_effect RUAMEL_AVAILABLE is_CommentedMap sources dry_run p d =
  merge_effect (list_to_set (dict_keys sources)) dry_run p d.
Proof.
intros Hs Hd. unfold source_effect, merge_effect.
destruct (source_translations_merge sources p d Hs Hd) as [-> ->]. done.
Qed.

Lemma source_account_merge sources p d r :
dict_ok sources → doc_ok d →
source_account RUAMEL_AVAILABLE is_CommentedMap sources p d r =
  merge_account (list_to_set (dict_keys sources)) p d r.
Proof.
intros Hs Hd. unfold source_account, merge_account.
destruct (source_translations_merge sources p d Hs Hd) as [-> _]. done.
Qed.

(** The loop of [merge_new_keys_with_sources] is a run over the entries of
  the directory. *)
Lemma merge_new_keys_with_sources_run sources dry_run fs :
dict_ok (files fs) →
merge_new_keys_with_sources RUAMEL_AVAILABLE is_CommentedMap sources dry_run fs =
  (let '(o, es, ws) :=
     run_files RUAMEL_AVAILABLE
       (source_effect RUAMEL_AVAILABLE is_CommentedMap sources dry_run)
       (source_account RUAMEL_AVAILABLE is_CommentedMap sources)
       (files fs) MergeResult_default in
   (o, {| files := es; written := written fs ++ ws |})).
Proof.
intros Hok. unfold merge_new_keys_with_sources, mbind at 1, M_bind at 1, glob_yml.
rewrite (for_each_ext _ _
           (file_body RUAMEL_AVAILABLE
              (source_effect RUAMEL_AVAILABLE is_CommentedMap sources dry_run)
              (source_account RUAMEL_AVAILABLE is_CommentedMap sources))).
- destruct fs as [entries w]. by apply (for_each_run_files _ _ _ [] entries).
- intros p result fs'. unfold file_body, mbind, M_bind.
  destruct (load_yaml_file p fs') as [[[|d|s]|e] fs1]; simpl; try done.
  unfold source_effect, source_account, source_translations, commented_of,
    translations_of, get_translations, or_empty.
  destruct (doc_translations d) as [[t|]|]; simpl;
    destruct (fold_left _ _ _) as [[t' cm'] n]; simpl;
    destruct (0 <? n); simpl; try done; by destruct dry_run.
Qed.
End Sources.

(** X14. The sources change nothing in the catalogs: for a dictionary of
    keys and sources with distinct keys, [merge_new_keys_with_sources]
    has the outcome of [merge_new_keys] on the set of its keys, the same
    result record or the same exception, and leaves the same catalogs in
    the files and the same log of written files, with the comment library
    or without it; the comments are set on the mapping that was loaded, and
    what is saved is the new dictionary of the sorted items. *)
Theorem merge_new_keys_with_sources_as_merge ruamel is_CommentedMap
    (new_keys_with_sources : dict string (list (string * Z))) dry_run fs :
  dict_ok new_keys_with_sources → dir_ok fs →
  merge_new_keys_with_sources ruamel is_CommentedMap new_keys_with_sources dry_run fs =
    merge_new_keys ruamel (list_to_set (dict_keys new_keys_with_sources)) dry_run fs.
Proof.
  intros Hs [Hnames Hok].
  rewrite merge_new_keys_with_sources_run, merge_new_keys_run by done.
  rewrite (run_files_ext ruamel
             (source_effect ruamel is_CommentedMap new_keys_with_sources dry_run)
             (merge_effect (list_to_set (dict_keys new_keys_with_sources)) dry_run)
             (source_account ruamel is_CommentedMap new_keys_with_sources)
             (merge_account (list_to_set (dict_keys new_keys_with_sources))));
    [done|done| |].
  - intros p d Hd. by apply source_effect_merge.
  - intros p d s Hd. by apply source_account_merge.
Qed.

Lemma merge_new_keys_with_sources_as_merge_witness :
  merge_new_keys_with_sources true (fun _ => true)
    [("C", [("home.xml", 12); ("menu.xml", 3)]); ("A", [("home.xml", 1)])] false sample_dir =
  merge_new_keys true {["C"; "A"]} false sample_dir.
Proof.
  apply (merge_new_keys_with_sources_as_merge true (fun _ => true)
           [("C", [("home.xml", 12); ("menu.xml", 3)]); ("A", [("home.xml", 1)])]
           false sample_dir); compute_done.
Defined.

(** ** report_obsolete_keys *)

(** X15. The report of obsolete keys: for the empty set it is the one line
    that says so; otherwise it is a line with the number of keys, an empty
    line, and one line for every key of the set, each key once and the keys
    in increasing order, whatever order the set is iterated in. *)
Theorem report_obsolete_keys_lines (obsolete_keys : gset string) :
  report_obsolete_keys ∅ = ["No obsolete keys found."] ∧
  (obsolete_keys ≠ ∅ →
   ∃ ks,
     report_obsolete_keys obsolete_keys =
       ("Found " +:+ str_int (Z.of_nat (size obsolete_keys)) +:+ " obsolete keys:")
       :: "" :: map (fun key => "  - " +:+ key) ks ∧
     StronglySorted key_lt ks ∧
     (∀ k, k ∈ ks ↔ k ∈ obsolete_keys) ∧
     length (report_obsolete_keys obsolete_keys) = (size obsolete_keys + 2)%nat).
Proof.
  split; [done|]. intros Hne. unfold report_obsolete_keys.
  rewrite decide_False by done.
  exists (sorted_strings (elements obsolete_keys)). split; [done|].
  assert (NoDup (sorted_strings (elements obsolete_keys))) as Hnd.
  { rewrite sorted_strings_perm. apply NoDup_elements. }
  split_and!.
  - pose proof (sorted_strings_sorted (elements obsolete_keys)) as Hs.
    induction Hs as [|k ks Hs IH Hall]; [constructor|].
    apply NoDup_cons in Hnd as [Hk Hnd]. constructor; [by apply IH|].
    rewrite Forall_forall in Hall. apply Forall_forall. intros k' Hk'.
    split; [by apply Hall|]. by intros ->.
  - intros k. by rewrite sorted_strings_perm, elem_of_elements.
  - simpl. rewrite length_map, sorted_strings_length. unfold size, set_size. simpl. lia.
Qed.

Lemma report_obsolete_keys_lines_witness :
  report_obsolete_keys {["b"; "a"; "B"]} =
    ["Found 3 obsolete keys:"; ""; "  - B"; "  - a"; "  - b"] ∧
  ∃ ks,
    report_obsolete_keys {["b"; "a"; "B"]} =
      ("Found " +:+ str_int (Z.of_nat (size ({["b"; "a"; "B"]} : gset string)))
                +:+ " obsolete keys:")
      :: "" :: map (fun key => "  - " +:+ key) ks ∧
    StronglySorted key_lt ks ∧
    (∀ k, k ∈ ks ↔ k ∈ ({["b"; "a"; "B"]} : gset string)) ∧
    length (report_obsolete_keys {["b"; "a"; "B"]}) =
      (size ({["b"; "a"; "B"]} : gset string) + 2)%nat.
Proof.
  split; [by vm_compute|].
  apply (proj2 (report_obsolete_keys_lines {["b"; "a"; "B"]})). compute_done.
Defined.

(** ** Merging in steps, and merging the strings in use *)

Section MergeCompose.
Implicit Types (d : document) (keys : gset string) (k : string).


(** A catalog that lacks none of the keys is counted 0. *)
Lemma missing_count_zero keys d :
missing_count keys d = 0 ↔ ∀ k, k ∈ keys → dict_get k (translations_of d) ≠ None.
Proof.
unfold missing_count. split.
- intros Hz k Hk Hnone.
  assert (filter (fun k => dict_get k (translations_of d) = None) (elements keys) = [])
    as Hnil by (apply length_zero_iff_nil; lia).
  apply (filter_nil_not_elem_of _ _ k Hnil Hnone). by rewrite elem_of_elements.
- intros Hall. rewrite filter_none; [done|].
  intros k Hk%elem_of_elements. by apply Hall.
Qed.


End MergeCompose.



Section Sync.
Context {xml_tree cpp_tree : Type}.
Variable extract_xml : xml_tree → gset string.
Variable extract_cpp : cpp_tree → gset string.

Local Abbreviation find := (find_obsolete_keys xml_tree cpp_tree extract_xml extract_cpp).
Local Abbreviation used := (used_strings extract_xml extract_cpp).

End Sync.


(** ** Saving and loading *)


Section SaveLoad.
Variable RUAMEL_AVAILABLE : bool.
Implicit Types (d : document) (p q : string).





End SaveLoad.


